(** * AssetDashboard: aggregation, enrichment loader and totals fold

    A shallow embedding of [server/src/components/assets/AssetDashboard.tsx].

    - The two [reduce] calls over the asset list ([assetsByCompany],
      [assetsByStatus]) and the fold over the summaries ([maintenanceStats])
      are pure functions over lists.
    - A JavaScript object used as [Record<string, V>] is the list of its own
      properties in creation order, together with the enumeration order
      [Object.keys] / [Object.values] / [Object.entries] use (array-index keys
      first, ascending, then the other keys in creation order).
    - The three folds come in two layers. The first gives them on keys that
      are data identifiers and on counts as integers ([Z]). The module [Js]
      gives them as the engine runs them on every input: the accumulators
      inherit the properties of [Object.prototype], so that a company
      identifier naming one makes the grouping throw and a status naming one
      is not counted as a number, and the totals are added as doubles, exact
      up to 2^53 and rounded beyond. The two layers agree on keys that are
      not inherited and on sums in the safe range.
    - [loadMaintenanceSummaries] is written in a state-and-exception monad:
      the state holds the two React state cells the function writes and a
      trace of the calls it makes; [await] of a rejected promise throws.
      Replaying a prefix of the trace gives the state committed at that point
      of the pass.
    - For repeated invocations the two [reduce] calls are also given over a
      store of objects, where the object literal allocates and the callback
      updates in place. *)

From Stdlib Require Import String Ascii Bool ZArith NArith List Lia Permutation.
Import ListNotations.
Local Open Scope string_scope.
Local Open Scope list_scope.
Local Open Scope Z_scope.

(** ** JavaScript objects as ordered property lists *)

Module JsObject.

(** [array_index k] is the array index a property key denotes, when it is
    the canonical decimal form of an integer below 2^32 - 1. *)
Definition digit_of (c : ascii) : option N :=
  let n := N_of_ascii c in
  if ((48 <=? n) && (n <=? 57))%N then Some (n - 48)%N else None.

Fixpoint parse_digits (s : string) (acc : N) : option N :=
  match s with
  | EmptyString => Some acc
  | String c r =>
      match digit_of c with
      | Some d => parse_digits r (10 * acc + d)%N
      | None => None
      end
  end.

Definition array_index (k : string) : option N :=
  match k with
  | EmptyString => None
  | String "0"%char EmptyString => Some 0%N
  | String "0"%char _ => None
  | _ =>
      match parse_digits k 0%N with
      | Some n => if (n <? 2 ^ 32 - 1)%N then Some n else None
      | None => None
      end
  end.

Section Properties.
Context {V : Type}.

(** Own properties, in creation order. *)
Definition t := list (string * V).

Definition empty : t := [].

(** [o[k]]: [None] stands for [undefined]. *)
Fixpoint get (o : t) (k : string) : option V :=
  match o with
  | [] => None
  | (k', v) :: r => if String.eqb k' k then Some v else get r k
  end.

(** [o[k] = v]: an existing property keeps its place, a new one is
    created last. *)
Fixpoint set (o : t) (k : string) (v : V) : t :=
  match o with
  | [] => [(k, v)]
  | (k', v') :: r =>
      if String.eqb k' k then (k', v) :: r else (k', v') :: set r k v
  end.

(** In-place mutation of the value held under [k] (as [o[k].push(x)]). *)
Fixpoint mutate (o : t) (k : string) (f : V -> V) : t :=
  match o with
  | [] => []
  | (k', v') :: r =>
      if String.eqb k' k then (k', f v') :: r else (k', v') :: mutate r k f
  end.

Fixpoint insert_index (x : N * (string * V)) (l : list (N * (string * V)))
  : list (N * (string * V)) :=
  match l with
  | [] => [x]
  | y :: r => if (fst x <=? fst y)%N then x :: l else y :: insert_index x r
  end.

Definition sort_index (l : list (N * (string * V))) : list (N * (string * V)) :=
  fold_right insert_index [] l.

Definition index_props (o : t) : list (N * (string * V)) :=
  flat_map (fun kv => match array_index (fst kv) with
                      | Some n => [(n, kv)]
                      | None => []
                      end) o.

Definition named_props (o : t) : list (string * V) :=
  filter (fun kv => match array_index (fst kv) with
                    | Some _ => false
                    | None => true
                    end) o.

(** [Object.entries(o)], [Object.keys(o)], [Object.values(o)]. *)
Definition entries (o : t) : list (string * V) :=
  map snd (sort_index (index_props o)) ++ named_props o.

Definition keys (o : t) : list string := map fst (entries o).

Definition values (o : t) : list V := map snd (entries o).

(** The keys as created, before enumeration reorders them. *)
Definition own_keys (o : t) : list string := map fst o.

End Properties.

Arguments t : clear implicits.

End JsObject.

(** ** Data model *)

(** The part of [Asset] (declared in [@/interfaces/asset.interfaces]) the
    component reads. [None] is [null] or [undefined]. *)
Record Company := mkCompany {
  company_name : option string
}.

Record Asset := mkAsset {
  name : string;
  asset_tag : string;
  status : string;
  company_id : option string;
  company : option Company;
  location : option string
}.

(** [ClientMaintenanceSummary]: the three counts the totals fold adds up
    ([compliance_rate], a floating-point percentage that is only displayed,
    is left out). *)
Record ClientMaintenanceSummary := mkSummary {
  total_schedules : Z;
  overdue_maintenances : Z;
  upcoming_maintenances : Z
}.

Record MaintenanceStats := mkStats {
  totalSchedules : Z;
  overdueMaintenances : Z;
  upcomingMaintenances : Z
}.

(** JavaScript truthiness of an optional string: [null], [undefined] and the
    empty string are falsy. *)
Definition truthy (s : option string) : bool :=
  match s with
  | Some s' => negb (String.eqb s' "")
  | None => false
  end.

(** [x || d] on optional strings. *)
Definition or_else (s : option string) (d : string) : string :=
  match s with
  | Some s' => if String.eqb s' "" then d else s'
  | None => d
  end.

(** [x || 0] on an optional number. *)
Definition or_zero (n : option Z) : Z :=
  match n with
  | Some n' => if n' =? 0 then 0 else n'
  | None => 0
  end.

(** ** Aggregator *)

(** The callback of the first [reduce] (lines 20-27), on company
    identifiers that are not names inherited from [Object.prototype];
    [Js.group_step] below gives it on every identifier. *)
Definition group_step (acc : JsObject.t (list Asset)) (asset : Asset)
  : JsObject.t (list Asset) :=
  match company_id asset with
  | Some id =>
      if negb (truthy (Some id)) then acc
      else
        let acc1 :=
          match JsObject.get acc id with
          | None => JsObject.set acc id []
          | Some _ => acc
          end in
        JsObject.mutate acc1 id (fun arr => arr ++ [asset])
  | None => acc
  end.

Definition assetsByCompany (assets : list Asset) : JsObject.t (list Asset) :=
  fold_left group_step assets JsObject.empty.

(** The callback of the second [reduce] (lines 31-34), on statuses that are
    not names inherited from [Object.prototype]; [Js.status_step] below gives
    it on every status. *)
Definition status_step (acc : JsObject.t Z) (asset : Asset) : JsObject.t Z :=
  JsObject.set acc (status asset) (or_zero (JsObject.get acc (status asset)) + 1).

Definition assetsByStatus (assets : list Asset) : JsObject.t Z :=
  fold_left status_step assets JsObject.empty.

Definition totalAssets (assets : list Asset) : Z := Z.of_nat (List.length assets).

(** ** Totals fold (lines 56-64)

    With exact integer addition, as the doubles of the source add up to
    2^53; [Js.stats_step] below rounds as they do beyond. *)

Definition stats_step (acc : MaintenanceStats) (summary : ClientMaintenanceSummary)
  : MaintenanceStats :=
  {| totalSchedules := totalSchedules acc + total_schedules summary;
     overdueMaintenances := overdueMaintenances acc + overdue_maintenances summary;
     upcomingMaintenances := upcomingMaintenances acc + upcoming_maintenances summary |}.

Definition maintenanceStats (maintenanceSummaries : JsObject.t ClientMaintenanceSummary)
  : MaintenanceStats :=
  fold_left stats_step (JsObject.values maintenanceSummaries)
            {| totalSchedules := 0; overdueMaintenances := 0; upcomingMaintenances := 0 |}.

(** ** Recent-assets table (lines 66-91 and 183-187) *)

(** The [render] callbacks of the Company and Location columns. *)
Definition render_company (value : option string) (record : Asset) : string :=
  or_else (match company record with
           | Some c => company_name c
           | None => None
           end) "Unassigned".

Definition render_location (value : option string) : string :=
  or_else value "Not specified".

(** [assets.slice(0, 5)], the [data] prop of the table. *)
Definition table_data (assets : list Asset) : list Asset := firstn 5 assets.

(** A column of the table: [dataIndex] as a path of property names, and the
    optional [render] callback. *)
Record ColumnDefinition := mkColumn {
  dataIndex : list string;
  title : string;
  render : option (option string -> Asset -> string)
}.

(** The [columns] array (lines 66-91). *)
Definition columns : list ColumnDefinition :=
  [ {| dataIndex := ["name"]; title := "Name"; render := None |};
    {| dataIndex := ["asset_tag"]; title := "Tag"; render := None |};
    {| dataIndex := ["status"]; title := "Status"; render := None |};
    {| dataIndex := ["company"; "company_name"]; title := "Company";
       render := Some render_company |};
    {| dataIndex := ["location"]; title := "Location";
       render := Some (fun value _ => render_location value) |} ].

(** Modelled from the spec: the generic data table ([@/components/ui/DataTable],
    not part of the sources). Without pagination it renders one row per record
    of [data], and in a row one cell per column: what the column's [render]
    callback returns for the record's value at [dataIndex] and the record, or
    that value itself when the column has no callback. [value_at] is the
    property lookup it performs on an [Asset]. *)
Definition value_at (record : Asset) (path : list string) : option string :=
  match path with
  | ["name"] => Some (name record)
  | ["asset_tag"] => Some (asset_tag record)
  | ["status"] => Some (status record)
  | ["location"] => location record
  | ["company"; "company_name"] =>
      match company record with
      | Some c => company_name c
      | None => None
      end
  | _ => None
  end.

Definition cell (record : Asset) (col : ColumnDefinition) : option string :=
  match render col with
  | Some f => Some (f (value_at record (dataIndex col)) record)
  | None => value_at record (dataIndex col)
  end.

Definition DataTable (cols : list ColumnDefinition) (data : list Asset)
  : list (list (option string)) :=
  map (fun record => map (cell record) cols) data.

(** The table of recent assets as the component mounts it (lines 183-187). *)
Definition recent_assets_table (assets : list Asset) : list (list (option string)) :=
  DataTable columns (table_data assets).

(** ** Enrichment loader (lines 36-53) *)

(** What a rejected promise carries. *)
Definition Error := string.

(** How an awaited promise settles. *)
Inductive Settled (A : Type) :=
| Resolved (a : A)
| Rejected (e : Error).

Arguments Resolved {A} a.
Arguments Rejected {A} e.

(** The calls [loadMaintenanceSummaries] makes, in the order it makes them.
    [Fetch id r] is one awaited call [getClientMaintenanceSummary(id)] with
    the way it settled. *)
Inductive Event :=
| SetLoading (b : bool)
| Fetch (companyId : string) (r : Settled ClientMaintenanceSummary)
| SetMaintenanceSummaries (m : JsObject.t ClientMaintenanceSummary)
| ConsoleError (error : Error).

(** The two state cells of the component the loader writes (lines 16-17),
    and the trace of its calls. *)
Record Component := mkComponent {
  maintenanceSummaries : JsObject.t ClientMaintenanceSummary;
  loading : bool;
  trace : list Event
}.

(** State after mount: [useState({})], [useState(false)]. *)
Definition mounted : Component :=
  {| maintenanceSummaries := JsObject.empty; loading := false; trace := [] |}.

(** Completion of a statement: normal, or a thrown value. *)
Inductive Completion (A : Type) :=
| Normal (a : A)
| Throw (e : Error).

Arguments Normal {A} a.
Arguments Throw {A} e.

Module Eff.

Definition M (A : Type) : Type := Component -> Completion A * Component.

Definition ret {A} (a : A) : M A := fun c => (Normal a, c).

Definition bind {A B} (m : M A) (k : A -> M B) : M B :=
  fun c =>
    match m c with
    | (Normal a, c') => k a c'
    | (Throw e, c') => (Throw e, c')
    end.

Definition emit (ev : Event) (c : Component) : Component :=
  {| maintenanceSummaries := maintenanceSummaries c;
     loading := loading c;
     trace := trace c ++ [ev] |}.

Definition setLoading (b : bool) : M unit :=
  fun c =>
    (Normal tt,
     {| maintenanceSummaries := maintenanceSummaries c;
        loading := b;
        trace := trace c ++ [SetLoading b] |}).

Definition setMaintenanceSummaries (m : JsObject.t ClientMaintenanceSummary) : M unit :=
  fun c =>
    (Normal tt,
     {| maintenanceSummaries := m;
        loading := loading c;
        trace := trace c ++ [SetMaintenanceSummaries m] |}).

Definition console_error (error : Error) : M unit :=
  fun c => (Normal tt, emit (ConsoleError error) c).

(** [await getClientMaintenanceSummary(companyId)], the promise settling
    as [r]: the value when resolved, a throw when rejected. *)
Definition await (companyId : string) (r : Settled ClientMaintenanceSummary)
  : M ClientMaintenanceSummary :=
  fun c =>
    match r with
    | Resolved s => (Normal s, emit (Fetch companyId r) c)
    | Rejected e => (Throw e, emit (Fetch companyId r) c)
    end.

(** [try { body } catch (error) { handler error }] *)
Definition try_catch {A} (body : M A) (handler : Error -> M A) : M A :=
  fun c =>
    match body c with
    | (Normal a, c') => (Normal a, c')
    | (Throw e, c') => handler e c'
    end.

(** [for (const x of xs) { body }] over a local the body updates. *)
Fixpoint for_of {K L} (xs : list K) (body : L -> K -> M L) (local : L) : M L :=
  match xs with
  | [] => ret local
  | x :: r => bind (body local x) (for_of r body)
  end.

End Eff.

Notation "x <- m ;; k" := (Eff.bind m (fun x => k))
  (at level 61, m at next level, right associativity).
Notation "m ;;; k" := (Eff.bind m (fun _ => k))
  (at level 61, right associativity).

Section Loader.

(** The remote collaborator: how the call for each company settles. The
    loop asks each company at most once (the keys of an object are distinct),
    so a function of the identifier covers every behaviour of a collaborator
    whose calls settle; a call that never settles is outside the model, the
    pass would not finish. *)
Variable getClientMaintenanceSummary : string -> Settled ClientMaintenanceSummary.

Definition loadMaintenanceSummaries (assets : list Asset) : Eff.M unit :=
  Eff.setLoading true ;;;
  Eff.try_catch
    (summaries <-
       Eff.for_of (JsObject.keys (assetsByCompany assets))
         (fun summaries companyId =>
            summary <- Eff.await companyId (getClientMaintenanceSummary companyId) ;;
            Eff.ret (JsObject.set summaries companyId summary))
         JsObject.empty ;;
     Eff.setMaintenanceSummaries summaries)
    (fun error => Eff.console_error error) ;;;
  Eff.setLoading false.

(** The component once the effect has run to completion after mount. *)
Definition after_load (assets : list Asset) : Completion unit * Component :=
  loadMaintenanceSummaries assets mounted.

End Loader.

(** ** What the presentation layer sees *)

(** A committed pair of state cells. *)
Record View := mkView {
  view_summaries : JsObject.t ClientMaintenanceSummary;
  view_loading : bool
}.

(** A state setter replaces the cell it belongs to; the other calls leave
    the committed state alone. *)
Definition commit (v : View) (ev : Event) : View :=
  match ev with
  | SetLoading b => {| view_summaries := view_summaries v; view_loading := b |}
  | SetMaintenanceSummaries m => {| view_summaries := m; view_loading := view_loading v |}
  | Fetch _ _ => v
  | ConsoleError _ => v
  end.

(** The committed state after a prefix of the trace. *)
Definition view_after (v : View) (evs : list Event) : View := fold_left commit evs v.

Definition mounted_view : View :=
  {| view_summaries := JsObject.empty; view_loading := false |}.

(** ** The aggregator on a store

    Both [reduce] calls start from a fresh object literal and update it in
    place. To speak about invoking the aggregator more than once, the same
    code is given over a store of objects: the literal allocates, the callback
    writes through the reference. *)

Module Store.

Inductive cell :=
| GroupsObj (o : JsObject.t (list Asset))
| CountsObj (o : JsObject.t Z).

(** Objects by address; an address is a position. *)
Definition t := list cell.





End Store.




(** ** Vocabulary of the statements *)

(** [asset] is filed under the key [k] by the grouping. *)
Definition in_group (k : string) (asset : Asset) : bool :=
  match company_id asset with
  | Some id => truthy (Some id) && String.eqb id k
  | None => false
  end.

(** [asset] is filed under some key: its company identifier is truthy. *)
Definition grouped (asset : Asset) : bool := truthy (company_id asset).

(** [asset] has a company identifier other than [null]. *)
Definition has_company_id (asset : Asset) : bool :=
  match company_id asset with
  | Some _ => true
  | None => false
  end.

Definition has_status (s : string) (asset : Asset) : bool := String.eqb (status asset) s.

Definition sum_counts (l : list Z) : Z := fold_right Z.add 0 l.

(** The object obtained by assigning the entries [ins] one after the other
    to an empty object. *)
Definition from_insertions {V} (ins : list (string * V)) : JsObject.t V :=
  fold_left (fun o kv => JsObject.set o (fst kv) (snd kv)) ins JsObject.empty.

Definition zero_stats : MaintenanceStats :=
  {| totalSchedules := 0; overdueMaintenances := 0; upcomingMaintenances := 0 |}.

(** Company identifiers of the fetches in a trace, in call order. *)
Definition attempted (tr : list Event) : list string :=
  flat_map (fun ev => match ev with Fetch k _ => [k] | _ => [] end) tr.

Definition is_commit (ev : Event) : bool :=
  match ev with
  | SetMaintenanceSummaries _ => true
  | _ => false
  end.

(** How many times [setMaintenanceSummaries] is called in a trace. *)
Definition commit_count (tr : list Event) : nat := length (filter is_commit tr).

Section Outcome.

Variable fetch : string -> Settled ClientMaintenanceSummary.

Definition resolved (k : string) : bool :=
  match fetch k with
  | Resolved _ => true
  | Rejected _ => false
  end.

(** The fetches of the loop over [ks]: it stops at the first rejection. *)
Fixpoint loop_events (ks : list string) : list Event :=
  match ks with
  | [] => []
  | k :: r =>
      match fetch k with
      | Resolved s => Fetch k (Resolved s) :: loop_events r
      | Rejected e => [Fetch k (Rejected e)]
      end
  end.

(** The local [summaries] when the loop over [ks] completes, or what it
    throws. *)
Fixpoint loop_result (ks : list string) (summaries : JsObject.t ClientMaintenanceSummary)
  : Completion (JsObject.t ClientMaintenanceSummary) :=
  match ks with
  | [] => Normal summaries
  | k :: r =>
      match fetch k with
      | Resolved s => loop_result r (JsObject.set summaries k s)
      | Rejected e => Throw e
      end
  end.

(** [m] holds, for exactly the companies [ks], what their fetch resolved
    with, in the order of [ks]. *)
Definition complete (ks : list string) (m : JsObject.t ClientMaintenanceSummary) : Prop :=
  JsObject.own_keys m = ks /\
  forall k, In k ks -> exists s, fetch k = Resolved s /\ JsObject.get m k = Some s.

End Outcome.

(** The committed summary mapping after the first [n] calls of the loader,
    started on the mounted component. *)
Definition visible (fetch : string -> Settled ClientMaintenanceSummary)
  (assets : list Asset) (n : nat) : JsObject.t ClientMaintenanceSummary :=
  view_summaries
    (view_after mounted_view (firstn n (trace (snd (after_load fetch assets))))).

(** Entries one at a time: right after a fetch resolves, its company's entry
    is in the committed mapping. *)
Definition visible_as_resolved (fetch : string -> Settled ClientMaintenanceSummary)
  (assets : list Asset) : Prop :=
  forall n k s,
    nth_error (trace (snd (after_load fetch assets))) n = Some (Fetch k (Resolved s)) ->
    JsObject.get (visible fetch assets (S n)) k = Some s.

(** ** Concrete inputs *)

Definition asset_of (n : string) (cid : option string) : Asset :=
  {| name := n; asset_tag := "T-" ++ n; status := "active";
     company_id := cid; company := None; location := None |}.

(** Three assets of the companies A, B and C. *)
Definition assets_ABC : list Asset :=
  [asset_of "a1" (Some "A"); asset_of "b1" (Some "B"); asset_of "c1" (Some "C")].

Definition summary_A : ClientMaintenanceSummary :=
  {| total_schedules := 5; overdue_maintenances := 1; upcoming_maintenances := 2 |}.

Definition summary_C : ClientMaintenanceSummary :=
  {| total_schedules := 3; overdue_maintenances := 0; upcoming_maintenances := 1 |}.

(** fetch(B) rejects; fetch(A) and fetch(C) resolve. *)
Definition fetch_B_rejects (k : string) : Settled ClientMaintenanceSummary :=
  if String.eqb k "A" then Resolved summary_A
  else if String.eqb k "C" then Resolved summary_C
  else Rejected "not found".

(** Every fetch resolves. *)
Definition fetch_all_resolve (k : string) : Settled ClientMaintenanceSummary :=
  Resolved summary_A.

(** An asset whose company identifier is the empty string. *)
Definition asset_blank_company : Asset := asset_of "x1" (Some "").

(** ** The rendered dashboard (lines 93-198)

    What the markup displays, as data: the four overview cards, the status
    distribution, the per-company overview, the table of recent assets and the
    loading overlay. Styling is left out, and so is the compliance percentage
    of a company ([compliance_rate.toFixed(1)], a floating-point value). *)

(** One card of the per-company overview (lines 139-176). [card_summary] is
    the pair of the overdue and upcoming counts when the summary block is
    rendered ([summary && ...]). *)
Record CompanyCard := mkCompanyCard {
  card_key : string;
  card_companyName : string;
  card_assetCount : Z;
  card_summary : option (Z * Z)
}.

Definition company_card (maintenanceSummaries : JsObject.t ClientMaintenanceSummary)
  (entry : string * list Asset) : CompanyCard :=
  let (companyId, companyAssets) := entry in
  let summary := JsObject.get maintenanceSummaries companyId in
  let companyName :=
    or_else (match nth_error companyAssets 0 with
             | Some first =>
                 match company first with
                 | Some c => company_name c
                 | None => None
                 end
             | None => None
             end) "Unassigned" in
  {| card_key := companyId;
     card_companyName := companyName;
     card_assetCount := Z.of_nat (length companyAssets);
     card_summary :=
       match summary with
       | Some s => Some (overdue_maintenances s, upcoming_maintenances s)
       | None => None
       end |}.

Record Dashboard := mkDashboard {
  total_assets_card : Z;
  schedules_card : Z;
  overdue_card : Z;
  upcoming_card : Z;
  status_distribution : list (string * Z);
  company_overview : list CompanyCard;
  recent_assets : list (list (option string));
  loading_overlay : bool
}.

(** One render of the component on the asset list it was mounted with and
    the committed state cells. *)
Definition AssetDashboard (assets : list Asset) (v : View) : Dashboard :=
  let stats := maintenanceStats (view_summaries v) in
  {| total_assets_card := totalAssets assets;
     schedules_card := totalSchedules stats;
     overdue_card := overdueMaintenances stats;
     upcoming_card := upcomingMaintenances stats;
     status_distribution := JsObject.entries (assetsByStatus assets);
     company_overview :=
       map (company_card (view_summaries v)) (JsObject.entries (assetsByCompany assets));
     recent_assets := recent_assets_table assets;
     loading_overlay := view_loading v |}.

(** The committed state once the pass started at mount has finished. *)
Definition settled_view (fetch : string -> Settled ClientMaintenanceSummary)
  (assets : list Asset) : View :=
  let c := snd (after_load fetch assets) in
  {| view_summaries := maintenanceSummaries c; view_loading := loading c |}.

(** ** Vocabulary of the further properties *)

(** The truthy company identifiers of an asset list, one per asset, in input
    order. *)
Definition company_ids (assets : list Asset) : list string :=
  flat_map (fun asset => match company_id asset with
                         | Some id => if truthy (Some id) then [id] else []
                         | None => []
                         end) assets.

(** The distinct elements of a list of keys, in order of first appearance. *)
Definition add_if_new (seen : list string) (k : string) : list string :=
  if existsb (String.eqb k) seen then seen else seen ++ [k].

Definition first_appearances (ks : list string) : list string :=
  fold_left add_if_new ks [].

(** No key of [ks] is an array index (as a UUID is not). *)
Definition no_array_index (ks : list string) : bool :=
  forallb (fun k => match JsObject.array_index k with
                    | Some _ => false
                    | None => true
                    end) ks.


(** Assets of two companies, interleaved, one without company. *)
Definition assets_mixed : list Asset :=
  [ {| name := "laptop"; asset_tag := "T-1"; status := "active";
       company_id := Some "acme"; company := None; location := None |};
    {| name := "router"; asset_tag := "T-2"; status := "inactive";
       company_id := Some "globex";
       company := Some {| company_name := Some "Globex" |}; location := Some "" |};
    {| name := "printer"; asset_tag := "T-3"; status := "active";
       company_id := None; company := None; location := Some "Lobby" |};
    {| name := "server"; asset_tag := "T-4"; status := "active";
       company_id := Some "acme";
       company := Some {| company_name := Some "Acme" |}; location := None |} ].

(** ** The engine's view of the three folds

    The accumulators of the two [reduce] calls are object literals, which
    inherit from [Object.prototype], and the totals are added as IEEE 754
    doubles. [group_step], [status_step] and [stats_step] above give the
    callbacks on keys that no object inherits and on sums that stay exact;
    this module gives them on every key and every integer count, and the two
    agree where the former apply (see the refinement lemmas). *)

Module Js.

(** The property names every object inherits from [Object.prototype]. *)
Definition prototype_names : list string :=
  [ "constructor"; "__proto__"; "hasOwnProperty"; "isPrototypeOf";
    "propertyIsEnumerable"; "toLocaleString"; "toString"; "valueOf";
    "__defineGetter__"; "__defineSetter__"; "__lookupGetter__"; "__lookupSetter__" ].

Definition inherited (k : string) : bool := existsb (String.eqb k) prototype_names.

(** [for (x of l) acc = f(acc, x)] with a callback that may throw: the
    [reduce] stops at the first throw. *)
Fixpoint reduce {A B} (f : B -> A -> Completion B) (l : list A) (acc : B) : Completion B :=
  match l with
  | [] => Normal acc
  | x :: r =>
      match f acc x with
      | Normal acc' => reduce f r acc'
      | Throw e => Throw e
      end
  end.

(** What [acc[id].push(asset)] throws when [acc[id]] is an inherited function
    (or, for [__proto__], the prototype object). *)
Definition push_is_not_a_function : Error := "TypeError: acc[asset.company_id].push is not a function".

(** The callback of the first [reduce] (lines 20-27). [acc[id]] is the own
    array when there is one; otherwise an inherited name reads as a truthy
    value without [push], and any other name as [undefined]. *)
Definition group_step (acc : JsObject.t (list Asset)) (asset : Asset)
  : Completion (JsObject.t (list Asset)) :=
  match company_id asset with
  | Some id =>
      if negb (truthy (Some id)) then Normal acc
      else
        match JsObject.get acc id with
        | Some _ => Normal (JsObject.mutate acc id (fun arr => arr ++ [asset]))
        | None =>
            if inherited id then Throw push_is_not_a_function
            else Normal (JsObject.mutate (JsObject.set acc id []) id
                           (fun arr => arr ++ [asset]))
        end
  | None => Normal acc
  end.

Definition assetsByCompany (assets : list Asset) : Completion (JsObject.t (list Asset)) :=
  reduce group_step assets JsObject.empty.

(** A value of the status-count mapping: a number, or the string that
    [f + 1] gives for an inherited function [f], namely the source text of
    the function named [name] followed by [ones] characters "1". *)
Inductive Count :=
| Num (n : Z)
| Text (name : string) (ones : nat).

(** [(value || 0) + 1] on an own value: a number is incremented, a string
    (never empty here, so truthy) gets "1" appended. *)
Definition increment (c : Count) : Count :=
  match c with
  | Num n => Num ((if n =? 0 then 0 else n) + 1)
  | Text name ones => Text name (S ones)
  end.

(** The callback of the second [reduce] (lines 31-34). Without an own
    property, the name [__proto__] reads as the prototype object and the
    assignment of the resulting string to it is ignored; any other inherited
    name reads as a function, and the string is stored as an own property;
    any other name reads as [undefined]. *)
Definition status_step (acc : JsObject.t Count) (asset : Asset) : JsObject.t Count :=
  let s := status asset in
  match JsObject.get acc s with
  | Some c => JsObject.set acc s (increment c)
  | None =>
      if String.eqb s "__proto__" then acc
      else if inherited s then JsObject.set acc s (Text s 1)
      else JsObject.set acc s (Num (0 + 1))
  end.

Definition assetsByStatus (assets : list Asset) : JsObject.t Count :=
  fold_left status_step assets JsObject.empty.

(** The sum of a list of counts, when all of them are numbers. *)
Fixpoint total (l : list Count) : option Z :=
  match l with
  | [] => Some 0
  | Num n :: r => option_map (Z.add n) (total r)
  | Text _ _ :: _ => None
  end.

(** The status distribution (lines 126-131): one card per entry. *)
Definition status_distribution (assets : list Asset) : list (string * Count) :=
  JsObject.entries (assetsByStatus assets).

(** The per-company overview (lines 139-176): one card per entry, when the
    grouping did not throw. *)
Definition company_overview (assets : list Asset) (v : View) : Completion (list CompanyCard) :=
  match assetsByCompany assets with
  | Normal groups =>
      Normal (map (company_card (view_summaries v)) (JsObject.entries groups))
  | Throw e => Throw e
  end.

(** [Number.MAX_SAFE_INTEGER] *)
Definition max_safe_integer : Z := 2 ^ 53 - 1.

(** The double nearest to the integer [z], ties to the even significand, for
    integers within the range of finite doubles: below 2^53 in magnitude every
    integer is a double, above the doubles are the multiples of
    [ulp = 2^(log2 |z| - 52)]. *)
Definition round_to_double (z : Z) : Z :=
  let a := Z.abs z in
  if a <? 2 ^ 53 then z
  else
    let ulp := 2 ^ (Z.log2 a - 52) in
    let q := a / ulp in
    let r := a mod ulp in
    let q' := if 2 * r <? ulp then q
              else if ulp <? 2 * r then q + 1
              else if Z.even q then q else q + 1 in
    Z.sgn z * (q' * ulp).

(** [x + y] on integer-valued doubles. *)
Definition add (x y : Z) : Z := round_to_double (x + y).

(** The callback of the totals fold (lines 57-62). *)
Definition stats_step (acc : MaintenanceStats) (summary : ClientMaintenanceSummary)
  : MaintenanceStats :=
  {| totalSchedules := add (totalSchedules acc) (total_schedules summary);
     overdueMaintenances := add (overdueMaintenances acc) (overdue_maintenances summary);
     upcomingMaintenances := add (upcomingMaintenances acc) (upcoming_maintenances summary) |}.

Definition maintenanceStats (maintenanceSummaries : JsObject.t ClientMaintenanceSummary)
  : MaintenanceStats :=
  fold_left stats_step (JsObject.values maintenanceSummaries)
            {| totalSchedules := 0; overdueMaintenances := 0; upcomingMaintenances := 0 |}.

(** The magnitudes of a list of counts add up to a safe integer, so that
    every partial sum, in any order, is exact. *)
Definition safe_sum (l : list Z) : Prop :=
  fold_right Z.add 0 (map Z.abs l) <= max_safe_integer.

Definition safe (ss : list ClientMaintenanceSummary) : Prop :=
  safe_sum (map total_schedules ss)
  /\ safe_sum (map overdue_maintenances ss)
  /\ safe_sum (map upcoming_maintenances ss).

End Js.

(** A status-count mapping of integers as one of engine counts. *)
Definition lift (o : JsObject.t Z) : JsObject.t Js.Count :=
  map (fun kv => (fst kv, Js.Num (snd kv))) o.

(** No truthy company identifier of [assets] is an inherited name. *)
Definition plain_company_ids (assets : list Asset) : Prop :=
  forall a id, In a assets -> company_id a = Some id -> Js.inherited id = false.

(** No status of [assets] is an inherited name. *)
Definition plain_statuses (assets : list Asset) : Prop :=
  forall a, In a assets -> Js.inherited (status a) = false.

(** Concrete inputs for the engine's view. *)
Definition asset_constructor_company : Asset := asset_of "k1" (Some "constructor").

Definition asset_proto_status : Asset :=
  {| name := "p1"; asset_tag := "T-p1"; status := "__proto__";
     company_id := None; company := None; location := None |}.

Definition summary_big : ClientMaintenanceSummary :=
  {| total_schedules := 2 ^ 53; overdue_maintenances := 0; upcoming_maintenances := 0 |}.

Definition summary_one : ClientMaintenanceSummary :=
  {| total_schedules := 1; overdue_maintenances := 0; upcoming_maintenances := 0 |}.

(** * Facts about the model *)

(** ** Objects *)

Module JsObjectFacts.
Import JsObject.
Section Facts.
Context {V : Type}.
Implicit Types (o : JsObject.t V) (k : string) (v : V).

Lemma insert_index_perm (x : N * (string * V)) l :
  Permutation (insert_index x l) (x :: l).
Proof.
  induction l as [|y r IH]; simpl; [reflexivity|].
  destruct (fst x <=? fst y)%N; [reflexivity|].
  rewrite IH. apply perm_swap.
Qed.

Lemma sort_index_perm (l : list (N * (string * V))) :
  Permutation (sort_index l) l.
Proof.
  induction l as [|x r IH]; simpl; [reflexivity|].
  rewrite insert_index_perm. now constructor.
Qed.

Lemma entries_perm o : Permutation (entries o) o.
Proof.
  unfold entries.
  rewrite (Permutation_map snd (sort_index_perm (index_props o))).
  induction o as [|[k v] r IH]; simpl; [reflexivity|].
  destruct (array_index k); simpl.
  - now constructor.
  - rewrite <- Permutation_middle. now constructor.
Qed.

Lemma keys_perm o : Permutation (keys o) (own_keys o).
Proof. unfold keys, own_keys. apply Permutation_map, entries_perm. Qed.

Lemma values_perm o : Permutation (values o) (map snd o).
Proof. unfold values. apply Permutation_map, entries_perm. Qed.

Lemma get_None_not_own o k : get o k = None <-> ~ In k (own_keys o).
Proof.
  induction o as [|[k' v'] r IH]; simpl.
  - tauto.
  - destruct (String.eqb_spec k' k) as [->|Hne].
    + split; [discriminate|]. intros H; exfalso; apply H; now left.
    + rewrite IH. split; [intros H [E|I]; [congruence|tauto] | tauto].
Qed.

Lemma get_In o k v : NoDup (own_keys o) -> In (k, v) o -> get o k = Some v.
Proof.
  induction o as [|[k' v'] r IH]; simpl; [tauto|].
  intros Hnd [E|I].
  - inversion E; subst. now rewrite String.eqb_refl.
  - inversion Hnd as [|? ? Hnin Hnd']; subst.
    destruct (String.eqb_spec k' k) as [->|Hne].
    + exfalso. apply Hnin. now apply (in_map fst) in I.
    + now apply IH.
Qed.

Lemma set_absent o k v : get o k = None -> set o k v = o ++ [(k, v)].
Proof.
  induction o as [|[k' v'] r IH]; simpl; [reflexivity|].
  destruct (String.eqb k' k); [discriminate|].
  intros H. now rewrite IH.
Qed.

Lemma get_set_same o k v : get (set o k v) k = Some v.
Proof.
  induction o as [|[k' v'] r IH]; simpl.
  - now rewrite String.eqb_refl.
  - destruct (String.eqb k' k) eqn:E; simpl; rewrite E; [reflexivity|exact IH].
Qed.

Lemma get_set_other o k k' v : k <> k' -> get (set o k v) k' = get o k'.
Proof.
  intros Hne. induction o as [|[k0 v0] r IH]; simpl.
  - destruct (String.eqb_spec k k'); [contradiction|reflexivity].
  - destruct (String.eqb_spec k0 k) as [->|Hne0]; simpl.
    + destruct (String.eqb_spec k k'); [contradiction|reflexivity].
    + destruct (String.eqb k0 k'); [reflexivity|exact IH].
Qed.

Lemma own_keys_set o k v :
  own_keys (set o k v) =
  match get o k with Some _ => own_keys o | None => own_keys o ++ [k] end.
Proof.
  induction o as [|[k' v'] r IH]; simpl; [reflexivity|].
  destruct (String.eqb k' k); simpl; [reflexivity|].
  rewrite IH. now destruct (get r k).
Qed.

Lemma own_keys_mutate o k f : own_keys (mutate o k f) = own_keys o.
Proof.
  induction o as [|[k' v'] r IH]; simpl; [reflexivity|].
  destruct (String.eqb k' k); simpl; [reflexivity|]. now rewrite IH.
Qed.

Lemma get_mutate_same o k f : get (mutate o k f) k = option_map f (get o k).
Proof.
  induction o as [|[k' v'] r IH]; simpl; [reflexivity|].
  destruct (String.eqb k' k) eqn:E; simpl; rewrite E; [reflexivity|exact IH].
Qed.

Lemma get_mutate_other o k k' f : k <> k' -> get (mutate o k f) k' = get o k'.
Proof.
  intros Hne. induction o as [|[k0 v0] r IH]; simpl; [reflexivity|].
  destruct (String.eqb_spec k0 k) as [->|Hne0]; simpl.
  - destruct (String.eqb_spec k k'); [contradiction|reflexivity].
  - destruct (String.eqb k0 k'); [reflexivity|exact IH].
Qed.

Lemma NoDup_own_keys_set o k v : NoDup (own_keys o) -> NoDup (own_keys (set o k v)).
Proof.
  intros Hnd. rewrite own_keys_set. destruct (get o k) eqn:E; [exact Hnd|].
  apply get_None_not_own in E.
  apply (Permutation_NoDup (l := k :: own_keys o)).
  - apply Permutation_cons_append.
  - now constructor.
Qed.

Lemma NoDup_keys o : NoDup (own_keys o) -> NoDup (keys o).
Proof.
  intros H. apply (Permutation_NoDup (l := own_keys o)); [|exact H].
  symmetry. apply keys_perm.
Qed.

Lemma In_entries o k v : In (k, v) (entries o) <-> In (k, v) o.
Proof.
  split; apply Permutation_in; [|symmetry]; apply entries_perm.
Qed.

End Facts.
End JsObjectFacts.

Import JsObjectFacts.

(** Enumeration puts array-index keys first, in ascending numeric order, and
    keeps the creation order of the others. *)
Example enumeration_order :
  JsObject.keys
    (assetsByCompany
       [asset_of "a1" (Some "B"); asset_of "a2" (Some "10");
        asset_of "a3" (Some "A"); asset_of "a4" (Some "9");
        asset_of "a5" (Some "B"); asset_of "a6" (Some "007")])
  = ["9"; "10"; "B"; "A"; "007"].
Proof. reflexivity. Qed.

(** ** Grouping and tallying *)

Lemma concat_Permutation {A} (l l' : list (list A)) :
  Permutation l l' -> Permutation (List.concat l) (List.concat l').
Proof.
  induction 1; simpl.
  - reflexivity.
  - now apply Permutation_app_head.
  - rewrite !app_assoc. apply Permutation_app_tail, Permutation_app_comm.
  - etransitivity; eassumption.
Qed.

Section Grouping.

(** What one step of the grouping does to the group read under [k]. *)
Lemma get_group_step acc a k :
  JsObject.get (group_step acc a) k =
  if in_group k a
  then Some (match JsObject.get acc k with Some g => g ++ [a] | None => [a] end)
  else JsObject.get acc k.
Proof.
  unfold group_step, in_group.
  destruct (company_id a) as [id|]; [|reflexivity].
  destruct (truthy (Some id)); simpl; [|reflexivity].
  destruct (String.eqb_spec id k) as [->|Hne].
  - rewrite get_mutate_same.
    destruct (JsObject.get acc k) eqn:E; simpl.
    + now rewrite E.
    + now rewrite get_set_same.
  - rewrite get_mutate_other by assumption.
    destruct (JsObject.get acc id); [reflexivity|].
    now apply get_set_other.
Qed.

Lemma get_fold_group l : forall acc k,
  JsObject.get (fold_left group_step l acc) k =
  match JsObject.get acc k, filter (in_group k) l with
  | None, [] => None
  | None, g => Some g
  | Some g0, g => Some (g0 ++ g)
  end.
Proof.
  induction l as [|a r IH]; intros acc k; simpl.
  - destruct (JsObject.get acc k); [now rewrite app_nil_r|reflexivity].
  - rewrite IH, get_group_step.
    destruct (in_group k a).
    + destruct (JsObject.get acc k); [now rewrite <- app_assoc|reflexivity].
    + reflexivity.
Qed.

Lemma own_keys_group_step acc a :
  NoDup (JsObject.own_keys acc) -> NoDup (JsObject.own_keys (group_step acc a)).
Proof.
  intros H. unfold group_step.
  destruct (company_id a) as [id|]; [|exact H].
  destruct (negb (truthy (Some id))); [exact H|].
  rewrite own_keys_mutate.
  destruct (JsObject.get acc id); [exact H|].
  now apply NoDup_own_keys_set.
Qed.

Lemma NoDup_fold_group l : forall acc,
  NoDup (JsObject.own_keys acc) -> NoDup (JsObject.own_keys (fold_left group_step l acc)).
Proof.
  induction l as [|a r IH]; intros acc H; simpl; [exact H|].
  apply IH. now apply own_keys_group_step.
Qed.

Lemma concat_mutate_push (acc : JsObject.t (list Asset)) id a g :
  JsObject.get acc id = Some g ->
  Permutation (List.concat (map snd (JsObject.mutate acc id (fun arr => arr ++ [a]))))
              (List.concat (map snd acc) ++ [a]).
Proof.
  induction acc as [|[k v] r IH]; simpl; [discriminate|].
  destruct (String.eqb k id); simpl.
  - intros _. rewrite <- !app_assoc. apply Permutation_app_head, Permutation_app_comm.
  - intros H. rewrite <- app_assoc. now apply Permutation_app_head, IH.
Qed.

Lemma concat_group_step acc a :
  Permutation (List.concat (map snd (group_step acc a)))
              (List.concat (map snd acc) ++ (if grouped a then [a] else [])).
Proof.
  unfold group_step, grouped.
  destruct (company_id a) as [id|]; [|now rewrite app_nil_r].
  destruct (truthy (Some id)); simpl; [|now rewrite app_nil_r].
  destruct (JsObject.get acc id) eqn:E.
  - eapply concat_mutate_push; eassumption.
  - rewrite (concat_mutate_push _ _ _ [] (get_set_same acc id [])).
    rewrite (set_absent _ _ _ E), map_app, concat_app. simpl.
    now rewrite app_nil_r.
Qed.

Lemma concat_fold_group l : forall acc,
  Permutation (List.concat (map snd (fold_left group_step l acc)))
              (List.concat (map snd acc) ++ filter grouped l).
Proof.
  induction l as [|a r IH]; intros acc; simpl.
  - now rewrite app_nil_r.
  - rewrite IH, concat_group_step, <- app_assoc.
    apply Permutation_app_head. now destruct (grouped a).
Qed.

Lemma in_group_grouped k a : in_group k a = true -> grouped a = true.
Proof.
  unfold in_group, grouped. destruct (company_id a); [|discriminate].
  now intros [H _]%andb_true_iff.
Qed.

End Grouping.

Section Tally.

Lemma or_zero_Some n : or_zero (Some n) = n.
Proof. simpl. destruct (Z.eqb_spec n 0); congruence. Qed.

Lemma get_status_step acc a s :
  or_zero (JsObject.get (status_step acc a) s) =
  or_zero (JsObject.get acc s) + (if has_status s a then 1 else 0).
Proof.
  unfold status_step, has_status.
  destruct (String.eqb_spec (status a) s) as [->|Hne].
  - rewrite get_set_same, or_zero_Some. reflexivity.
  - rewrite get_set_other by assumption. lia.
Qed.

Lemma get_fold_status l : forall acc s,
  or_zero (JsObject.get (fold_left status_step l acc) s) =
  or_zero (JsObject.get acc s) + Z.of_nat (length (filter (has_status s) l)).
Proof.
  induction l as [|a r IH]; intros acc s; simpl; [lia|].
  rewrite IH, get_status_step. destruct (has_status s a); simpl length; lia.
Qed.

Lemma sum_counts_perm l1 l2 : Permutation l1 l2 -> sum_counts l1 = sum_counts l2.
Proof. unfold sum_counts. induction 1; simpl; lia. Qed.

Lemma sum_status_step acc a :
  sum_counts (map snd (status_step acc a)) = sum_counts (map snd acc) + 1.
Proof.
  unfold status_step. generalize (status a) as s. intros s.
  induction acc as [|[k v] r IH]; simpl; [reflexivity|].
  destruct (String.eqb k s); simpl.
  - destruct (Z.eqb_spec v 0); lia.
  - unfold sum_counts in *. simpl in *. 
    destruct (JsObject.get r s); simpl in *; lia.
Qed.

Lemma sum_fold_status l : forall acc,
  sum_counts (map snd (fold_left status_step l acc)) =
  sum_counts (map snd acc) + Z.of_nat (length l).
Proof.
  induction l as [|a r IH]; intros acc; simpl length; simpl fold_left; [lia|].
  rewrite IH, sum_status_step. lia.
Qed.

End Tally.

(** ** Totals fold *)

Lemma stats_step_comm acc x y :
  stats_step (stats_step acc x) y = stats_step (stats_step acc y) x.
Proof. unfold stats_step; simpl; f_equal; lia. Qed.

Lemma fold_stats_perm l l' :
  Permutation l l' -> forall acc, fold_left stats_step l acc = fold_left stats_step l' acc.
Proof.
  induction 1 as [|x l l' _ IH|x y l|l l' l'' _ IH1 _ IH2]; intros acc; simpl.
  - reflexivity.
  - apply IH.
  - now rewrite stats_step_comm.
  - now rewrite IH1.
Qed.

Lemma maintenanceStats_perm (o o' : JsObject.t ClientMaintenanceSummary) :
  Permutation o o' -> maintenanceStats o = maintenanceStats o'.
Proof.
  intros H. unfold maintenanceStats. apply fold_stats_perm.
  rewrite !values_perm. now apply Permutation_map.
Qed.

Lemma fold_set_fresh {V} (ins : list (string * V)) : forall o,
  NoDup (JsObject.own_keys o ++ map fst ins) ->
  fold_left (fun o kv => JsObject.set o (fst kv) (snd kv)) ins o = o ++ ins.
Proof.
  induction ins as [|[k v] r IH]; intros o Hnd; simpl.
  - now rewrite app_nil_r.
  - simpl in Hnd.
    assert (Hk : JsObject.get o k = None).
    { apply get_None_not_own. apply NoDup_remove_2 in Hnd.
      intros Hin. apply Hnd. apply in_or_app. now left. }
    rewrite (set_absent _ _ _ Hk), IH.
    + now rewrite <- app_assoc.
    + unfold JsObject.own_keys in *. rewrite map_app, <- app_assoc. exact Hnd.
Qed.

Lemma from_insertions_fresh {V} (ins : list (string * V)) :
  NoDup (map fst ins) -> from_insertions ins = ins.
Proof. intros H. unfold from_insertions. now rewrite fold_set_fresh. Qed.

Lemma group_of_assetsByCompany assets k :
  JsObject.get (assetsByCompany assets) k =
  match filter (in_group k) assets with
  | [] => None
  | g => Some g
  end.
Proof. unfold assetsByCompany. now rewrite get_fold_group. Qed.

Lemma NoDup_assetsByCompany assets : NoDup (JsObject.own_keys (assetsByCompany assets)).
Proof. apply NoDup_fold_group. constructor. Qed.

Lemma count_of_assetsByStatus assets s :
  or_zero (JsObject.get (assetsByStatus assets) s) =
  Z.of_nat (length (filter (has_status s) assets)).
Proof. unfold assetsByStatus. now rewrite get_fold_status. Qed.

Lemma entry_of_assetsByCompany assets k g :
  In (k, g) (JsObject.entries (assetsByCompany assets)) ->
  g = filter (in_group k) assets /\ g <> [].
Proof.
  intros H. apply (proj1 (In_entries _ _ _)) in H.
  apply get_In in H; [|apply NoDup_assetsByCompany].
  rewrite group_of_assetsByCompany in H.
  destruct (filter (in_group k) assets); [discriminate|].
  injection H as <-. split; [reflexivity|discriminate].
Qed.

(** ** The loader *)

Section LoaderFacts.

Variable fetch : string -> Settled ClientMaintenanceSummary.

Lemma for_of_loop ks : forall summaries c,
  Eff.for_of ks
    (fun summaries companyId =>
       summary <- Eff.await companyId (fetch companyId) ;;
       Eff.ret (JsObject.set summaries companyId summary))
    summaries c =
  (loop_result fetch ks summaries,
   {| maintenanceSummaries := maintenanceSummaries c;
      loading := loading c;
      trace := trace c ++ loop_events fetch ks |}).
Proof.
  induction ks as [|k r IH]; intros summaries c; simpl.
  - unfold Eff.ret. destruct c; simpl. now rewrite app_nil_r.
  - unfold Eff.bind at 1. unfold Eff.bind at 1. unfold Eff.await, Eff.ret.
    destruct (fetch k) as [s|e]; simpl.
    + rewrite IH. simpl. now rewrite <- app_assoc.
    + reflexivity.
Qed.

(** The loader in closed form. *)
Lemma load_spec assets c :
  loadMaintenanceSummaries fetch assets c =
  (Normal tt,
   let ks := JsObject.keys (assetsByCompany assets) in
   match loop_result fetch ks JsObject.empty with
   | Normal m =>
       {| maintenanceSummaries := m;
          loading := false;
          trace := trace c ++ SetLoading true :: loop_events fetch ks
                     ++ [SetMaintenanceSummaries m; SetLoading false] |}
   | Throw e =>
       {| maintenanceSummaries := maintenanceSummaries c;
          loading := false;
          trace := trace c ++ SetLoading true :: loop_events fetch ks
                     ++ [ConsoleError e; SetLoading false] |}
   end).
Proof.
  unfold loadMaintenanceSummaries.
  unfold Eff.bind at 1. unfold Eff.setLoading at 1.
  unfold Eff.bind at 1. unfold Eff.try_catch.
  unfold Eff.bind at 1. rewrite for_of_loop. cbv zeta.
  destruct (loop_result fetch (JsObject.keys (assetsByCompany assets)) JsObject.empty)
    as [m|e]; unfold Eff.setMaintenanceSummaries, Eff.console_error, Eff.setLoading, Eff.emit;
    simpl; repeat rewrite <- app_assoc; reflexivity.
Qed.

Lemma resolved_true k : resolved fetch k = true <-> exists s, fetch k = Resolved s.
Proof.
  unfold resolved. destruct (fetch k) as [s|e]; split; try discriminate; eauto.
  intros [s H]; discriminate.
Qed.

Lemma some_rejected ks :
  forallb (resolved fetch) ks = false <-> exists k e, In k ks /\ fetch k = Rejected e.
Proof.
  induction ks as [|k r IH]; simpl.
  - split; [discriminate|]. intros (? & ? & [] & _).
  - unfold resolved at 1. destruct (fetch k) as [s|e] eqn:E; simpl.
    + rewrite IH. split.
      * intros (k' & e & Hin & H). eauto.
      * intros (k' & e & [<-|Hin] & H); [congruence|eauto].
    + split; [|reflexivity]. intros _. exists k, e. auto.
Qed.

Lemma loop_result_resolved ks : forall acc,
  forallb (resolved fetch) ks = true -> exists m, loop_result fetch ks acc = Normal m.
Proof.
  induction ks as [|k r IH]; intros acc; simpl; [eauto|].
  unfold resolved at 1. destruct (fetch k); simpl; [apply IH|discriminate].
Qed.

Lemma loop_result_rejected ks : forall acc,
  forallb (resolved fetch) ks = false -> exists e, loop_result fetch ks acc = Throw e.
Proof.
  induction ks as [|k r IH]; intros acc; simpl; [discriminate|].
  unfold resolved at 1. destruct (fetch k); simpl; [apply IH|eauto].
Qed.

Lemma loop_result_Normal ks : forall acc m,
  loop_result fetch ks acc = Normal m -> forallb (resolved fetch) ks = true.
Proof.
  intros acc m H. destruct (forallb (resolved fetch) ks) eqn:E; [reflexivity|].
  destruct (loop_result_rejected ks acc E) as [e He]. congruence.
Qed.

Lemma loop_events_resolved ks :
  forallb (resolved fetch) ks = true ->
  loop_events fetch ks = map (fun k => Fetch k (fetch k)) ks.
Proof.
  induction ks as [|k r IH]; simpl; [reflexivity|].
  unfold resolved at 1. destruct (fetch k); simpl; [|discriminate].
  intros H. now rewrite IH.
Qed.

(** The loop over [before ++ k :: after] when [k] is the first to reject. *)
Lemma loop_first_rejection before k e after : forall acc,
  forallb (resolved fetch) before = true ->
  fetch k = Rejected e ->
  loop_result fetch (before ++ k :: after) acc = Throw e
  /\ loop_events fetch (before ++ k :: after)
     = map (fun k => Fetch k (fetch k)) (before ++ [k]).
Proof.
  induction before as [|b r IH]; intros acc Hb Hk; simpl.
  - rewrite Hk. auto.
  - simpl in Hb. unfold resolved at 1 in Hb.
    destruct (fetch b) eqn:E; simpl in Hb; [|discriminate].
    destruct (IH (JsObject.set acc b a) Hb Hk) as [H1 H2].
    now rewrite H1, H2.
Qed.

Lemma loop_events_fetches ks ev :
  In ev (loop_events fetch ks) -> exists k, In k ks /\ ev = Fetch k (fetch k).
Proof.
  induction ks as [|k r IH]; simpl; [tauto|].
  destruct (fetch k) eqn:E; simpl.
  - intros [<-|H]; [exists k; rewrite E; auto|].
    destruct (IH H) as (k' & ? & ?). eauto.
  - intros [<-|[]]. exists k. rewrite E. auto.
Qed.

Lemma loop_events_no_commit ks : filter is_commit (loop_events fetch ks) = [].
Proof.
  induction ks as [|k r IH]; simpl; [reflexivity|].
  destruct (fetch k); simpl; [exact IH|reflexivity].
Qed.

Lemma loop_events_no_setLoading ks b : ~ In (SetLoading b) (loop_events fetch ks).
Proof.
  intros H. apply loop_events_fetches in H as (k & _ & H). discriminate.
Qed.

Lemma attempted_fetches ks : attempted (map (fun k => Fetch k (fetch k)) ks) = ks.
Proof. induction ks; simpl; congruence. Qed.

(** What the local [summaries] holds when the loop completes. *)
Lemma loop_result_complete ks : forall acc m,
  loop_result fetch ks acc = Normal m ->
  NoDup (JsObject.own_keys acc ++ ks) ->
  JsObject.own_keys m = JsObject.own_keys acc ++ ks
  /\ (forall k, In k ks -> exists s, fetch k = Resolved s /\ JsObject.get m k = Some s)
  /\ (forall k, ~ In k ks -> JsObject.get m k = JsObject.get acc k).
Proof.
  induction ks as [|k r IH]; intros acc m H Hnd; simpl in H.
  - injection H as <-. rewrite app_nil_r. split; [reflexivity|split; [intros ? []|reflexivity]].
  - destruct (fetch k) as [s|e] eqn:E; [|discriminate].
    assert (Hk : JsObject.get acc k = None).
    { apply get_None_not_own. apply NoDup_remove_2 in Hnd.
      intros Hin. apply Hnd, in_or_app. now left. }
    assert (Hr : ~ In k r).
    { apply NoDup_remove_2 in Hnd. intros Hin. apply Hnd, in_or_app. now right. }
    destruct (IH (JsObject.set acc k s) m H) as (Hkeys & Hin & Hout).
    { rewrite own_keys_set, Hk, <- app_assoc. exact Hnd. }
    rewrite own_keys_set, Hk, <- app_assoc in Hkeys.
    split; [exact Hkeys|]. split.
    + intros k' [<-|Hk'].
      * exists s. split; [exact E|]. rewrite (Hout k Hr). apply get_set_same.
      * now apply Hin.
    + intros k' Hk'. rewrite Hout by (intros ?; apply Hk'; now right).
      apply get_set_other. intros ->. apply Hk'. now left.
Qed.

Lemma NoDup_company_keys assets : NoDup (JsObject.keys (assetsByCompany assets)).
Proof. apply NoDup_keys, NoDup_assetsByCompany. Qed.

Lemma loop_complete assets m :
  loop_result fetch (JsObject.keys (assetsByCompany assets)) JsObject.empty = Normal m ->
  complete fetch (JsObject.keys (assetsByCompany assets)) m.
Proof.
  intros H. apply loop_result_complete in H as (H1 & H2 & _).
  - split; assumption.
  - apply NoDup_company_keys.
Qed.

End LoaderFacts.

(** ** Committed views *)

Lemma view_after_app v t1 t2 : view_after v (t1 ++ t2) = view_after (view_after v t1) t2.
Proof. apply fold_left_app. Qed.

Lemma view_summaries_no_commit evs : forall v,
  filter is_commit evs = [] -> view_summaries (view_after v evs) = view_summaries v.
Proof.
  induction evs as [|ev r IH]; intros v H; simpl; [reflexivity|].
  simpl in H. destruct ev; simpl in H; try discriminate; now rewrite IH.
Qed.

Lemma view_loading_no_set evs : forall v,
  (forall b, ~ In (SetLoading b) evs) -> view_loading (view_after v evs) = view_loading v.
Proof.
  induction evs as [|ev r IH]; intros v H; simpl; [reflexivity|].
  rewrite IH by (intros b Hb; apply (H b); now right).
  destruct ev; try reflexivity. exfalso. apply (H b). now left.
Qed.

Lemma filter_firstn_nil {A} (f : A -> bool) (l : list A) n :
  filter f l = [] -> filter f (firstn n l) = [].
Proof.
  revert n. induction l as [|x r IH]; intros [|n] H; simpl; try reflexivity.
  simpl in H. destruct (f x); [discriminate|]. now apply IH.
Qed.

Section Visibility.

Variable fetch : string -> Settled ClientMaintenanceSummary.
Variable assets : list Asset.

Let ks := JsObject.keys (assetsByCompany assets).

Lemma trace_after_load :
  trace (snd (after_load fetch assets)) =
  (SetLoading true :: loop_events fetch ks)
    ++ match loop_result fetch ks JsObject.empty with
       | Normal m => [SetMaintenanceSummaries m; SetLoading false]
       | Throw e => [ConsoleError e; SetLoading false]
       end.
Proof.
  unfold after_load. rewrite load_spec. cbv zeta. fold ks.
  destruct (loop_result fetch ks JsObject.empty); reflexivity.
Qed.

(** The committed mapping is empty up to the single commit, and what the
    loop collected from then on. *)
Lemma visible_spec n :
  visible fetch assets n =
  match loop_result fetch ks JsObject.empty with
  | Normal m => if (n <=? S (length (loop_events fetch ks)))%nat then JsObject.empty else m
  | Throw _ => JsObject.empty
  end.
Proof.
  unfold visible. rewrite trace_after_load, firstn_app. rewrite view_after_app.
  assert (Hpre : forall v, view_summaries
                   (view_after v (firstn n (SetLoading true :: loop_events fetch ks)))
                 = view_summaries v).
  { intros v. apply view_summaries_no_commit, filter_firstn_nil.
    simpl. apply loop_events_no_commit. }
  simpl length.
  destruct (loop_result fetch ks JsObject.empty) as [m|e].
  - destruct (Nat.leb_spec n (S (length (loop_events fetch ks)))) as [Hle|Hgt].
    + replace (n - S (length (loop_events fetch ks)))%nat with 0%nat by lia.
      simpl firstn. simpl view_after at 1. apply Hpre.
    + destruct (n - S (length (loop_events fetch ks)))%nat as [|j] eqn:E; [lia|].
      simpl firstn. simpl view_after at 1.
      rewrite view_summaries_no_commit; [reflexivity|].
      apply filter_firstn_nil. reflexivity.
  - rewrite view_summaries_no_commit; [apply Hpre|].
    apply filter_firstn_nil. reflexivity.
Qed.

End Visibility.

(** ** The store *)

Module StoreFacts.
Import Store.






End StoreFacts.

Section InPlace.
Import Store StoreFacts.




End InPlace.

(** ** Helper facts for the cards, the totals and the loader *)

Lemma in_group_true k a :
  in_group k a = true -> company_id a = Some k /\ k <> "".
Proof.
  unfold in_group, truthy. destruct (company_id a) as [id|]; [|discriminate].
  intros [Ht He]%andb_true_iff. apply String.eqb_eq in He. subst id.
  split; [reflexivity|]. intros ->. discriminate.
Qed.

Lemma company_key_has_asset assets k :
  In k (JsObject.keys (assetsByCompany assets)) ->
  k <> "" /\ exists a, In a assets /\ company_id a = Some k.
Proof.
  unfold JsObject.keys. intros ([k' g] & <- & Hin)%in_map_iff. simpl.
  apply entry_of_assetsByCompany in Hin as [-> Hne].
  destruct (filter (in_group k') assets) as [|a g] eqn:E; [contradiction|].
  assert (Ha : In a (filter (in_group k') assets)) by (rewrite E; now left).
  apply filter_In in Ha as [Ha Hg]. apply in_group_true in Hg as [Hid Hk].
  split; [exact Hk|]. eauto.
Qed.

Lemma attempted_loop_prefix fetch ks :
  exists rest, ks = attempted (loop_events fetch ks) ++ rest.
Proof.
  induction ks as [|k r [rest IH]]; simpl.
  - exists []. reflexivity.
  - destruct (fetch k); simpl.
    + exists rest. now rewrite <- IH.
    + exists r. reflexivity.
Qed.

Lemma attempted_after_load fetch assets :
  attempted (trace (snd (after_load fetch assets)))
  = attempted (loop_events fetch (JsObject.keys (assetsByCompany assets))).
Proof.
  rewrite trace_after_load. unfold attempted. rewrite flat_map_app. simpl.
  destruct (loop_result fetch _ JsObject.empty); simpl; now rewrite app_nil_r.
Qed.

Lemma group_step_skips acc a : grouped a = false -> group_step acc a = acc.
Proof.
  unfold grouped, group_step. destruct (company_id a) as [id|]; [|reflexivity].
  now intros ->.
Qed.

Lemma no_grouped_no_groups assets :
  (forall a, In a assets -> grouped a = false) -> assetsByCompany assets = JsObject.empty.
Proof.
  unfold assetsByCompany. generalize (@JsObject.empty (list Asset)) as acc.
  induction assets as [|a r IH]; intros acc H; simpl; [reflexivity|].
  rewrite group_step_skips by (apply H; now left).
  apply IH. intros x Hx. apply H. now right.
Qed.







Lemma company_overview_cards assets v card :
  In card (company_overview (AssetDashboard assets v)) ->
  exists k g, In (k, g) (JsObject.entries (assetsByCompany assets))
              /\ card = company_card (view_summaries v) (k, g).
Proof.
  simpl. intros ([k g] & <- & Hin)%in_map_iff. eauto.
Qed.

Lemma card_keys assets v :
  map card_key (company_overview (AssetDashboard assets v))
  = JsObject.keys (assetsByCompany assets).
Proof.
  simpl. unfold JsObject.keys. rewrite map_map. apply map_ext. now intros [k g].
Qed.

Lemma card_counts assets v :
  map card_assetCount (company_overview (AssetDashboard assets v))
  = map (fun g => Z.of_nat (length g)) (JsObject.values (assetsByCompany assets)).
Proof.
  simpl. unfold JsObject.values. rewrite !map_map. apply map_ext. now intros [k g].
Qed.

Lemma filter_first {A} (f : A -> bool) (l : list A) a g :
  filter f l = a :: g ->
  exists before rest,
    l = before ++ a :: rest /\ (forall x, In x before -> f x = false) /\ f a = true.
Proof.
  induction l as [|x r IH]; simpl; [discriminate|].
  destruct (f x) eqn:E.
  - intros [= -> <-]. exists [], r. repeat split; [intros ? []|assumption].
  - intros H. destruct (IH H) as (before & rest & -> & Hb & Ha).
    exists (x :: before), rest. repeat split; [|assumption].
    intros y [<-|Hy]; auto.
Qed.

Lemma or_else_not_blank s d : d <> "" -> or_else s d <> "".
Proof.
  intros Hd. unfold or_else. destruct s as [s|]; [|exact Hd].
  destruct (String.eqb_spec s ""); assumption.
Qed.

Lemma filter_split_length {A} (f : A -> bool) (l : list A) :
  (length (filter f l) + length (filter (fun x => negb (f x)) l) = length l)%nat.
Proof. induction l as [|x r IH]; simpl; [reflexivity|]. destruct (f x); simpl; lia. Qed.

Lemma sum_lengths_concat {A} (l : list (list A)) :
  sum_counts (map (fun g => Z.of_nat (length g)) l) = Z.of_nat (length (List.concat l)).
Proof.
  induction l as [|g r IH]; simpl; [reflexivity|].
  rewrite length_app. unfold sum_counts in *. simpl. lia.
Qed.

Lemma NoDup_assetsByStatus assets : NoDup (JsObject.own_keys (assetsByStatus assets)).
Proof.
  unfold assetsByStatus.
  assert (H : NoDup (JsObject.own_keys (@JsObject.empty Z))) by constructor.
  revert H. generalize (@JsObject.empty Z) as acc.
  induction assets as [|a r IH]; intros acc H; simpl; [exact H|].
  apply IH. unfold status_step. now apply NoDup_own_keys_set.
Qed.

Lemma status_key_has_asset assets : forall acc k,
  In k (JsObject.own_keys (fold_left status_step assets acc)) ->
  In k (JsObject.own_keys acc) \/ exists a, In a assets /\ status a = k.
Proof.
  induction assets as [|a r IH]; intros acc k H; simpl in *; [now left|].
  apply IH in H as [H|(x & Hx & Hs)].
  - unfold status_step in H. rewrite own_keys_set in H.
    destruct (JsObject.get acc (status a)); [now left|].
    apply in_app_or in H as [H|[<-|[]]]; [now left|]. right. eauto.
  - right. eauto.
Qed.

Lemma existsb_own_key {V} (o : JsObject.t V) k :
  existsb (String.eqb k) (JsObject.own_keys o) = true <-> JsObject.get o k <> None.
Proof.
  induction o as [|[k' x] r IH]; simpl.
  - split; [discriminate|congruence].
  - rewrite (String.eqb_sym k k'). destruct (String.eqb k' k); simpl.
    + split; [discriminate|reflexivity].
    + exact IH.
Qed.

Lemma own_keys_set_add_if_new {V} (o : JsObject.t V) k x :
  JsObject.own_keys (JsObject.set o k x) = add_if_new (JsObject.own_keys o) k.
Proof.
  rewrite own_keys_set. unfold add_if_new.
  destruct (existsb (String.eqb k) (JsObject.own_keys o)) eqn:E.
  - apply existsb_own_key in E. destruct (JsObject.get o k); congruence.
  - destruct (JsObject.get o k) eqn:G; [|reflexivity].
    assert (existsb (String.eqb k) (JsObject.own_keys o) = true)
      by (apply existsb_own_key; congruence).
    congruence.
Qed.

Lemma add_if_new_present seen k :
  existsb (String.eqb k) seen = true -> add_if_new seen k = seen.
Proof. unfold add_if_new. now intros ->. Qed.

Lemma own_keys_group_step_new acc a :
  JsObject.own_keys (group_step acc a)
  = fold_left add_if_new (company_ids [a]) (JsObject.own_keys acc).
Proof.
  unfold group_step, company_ids. cbn [flat_map]. rewrite app_nil_r.
  destruct (company_id a) as [id|]; [|reflexivity].
  destruct (truthy (Some id)); cbn [negb fold_left]; [|reflexivity].
  rewrite own_keys_mutate.
  destruct (JsObject.get acc id) eqn:G.
  - symmetry. apply add_if_new_present, existsb_own_key. congruence.
  - apply own_keys_set_add_if_new.
Qed.

Lemma own_keys_fold_group assets : forall acc,
  JsObject.own_keys (fold_left group_step assets acc)
  = fold_left add_if_new (company_ids assets) (JsObject.own_keys acc).
Proof.
  induction assets as [|a r IH]; intros acc; [reflexivity|].
  replace (company_ids (a :: r)) with (company_ids [a] ++ company_ids r)
    by (unfold company_ids; cbn [flat_map]; now rewrite app_nil_r).
  cbn [fold_left]. rewrite IH, fold_left_app, own_keys_group_step_new. reflexivity.
Qed.

Lemma own_keys_fold_status assets : forall acc,
  JsObject.own_keys (fold_left status_step assets acc)
  = fold_left add_if_new (map status assets) (JsObject.own_keys acc).
Proof.
  induction assets as [|a r IH]; intros acc; simpl; [reflexivity|].
  rewrite IH. f_equal. apply own_keys_set_add_if_new.
Qed.

Lemma entries_without_index {V} (o : JsObject.t V) :
  no_array_index (JsObject.own_keys o) = true -> JsObject.entries o = o.
Proof.
  unfold JsObject.entries, JsObject.index_props, JsObject.named_props, no_array_index.
  induction o as [|[k x] r IH]; simpl; [reflexivity|].
  destruct (JsObject.array_index k); simpl; [discriminate|].
  intros H. specialize (IH H).
  destruct (flat_map _ r) eqn:E.
  - simpl in *. now rewrite IH.
  - exfalso. clear -E H.
    induction r as [|[k' x'] r IH]; simpl in *; [discriminate|].
    destruct (JsObject.array_index k'); simpl in *; [discriminate|]. auto.
Qed.

Lemma sum_counts_set (f : ClientMaintenanceSummary -> Z)
  (o : JsObject.t ClientMaintenanceSummary) k s :
  sum_counts (map f (map snd (JsObject.set o k s)))
  = sum_counts (map f (map snd o)) + f s
    - match JsObject.get o k with Some old => f old | None => 0 end.
Proof.
  unfold sum_counts. induction o as [|[k' x] r IH]; simpl; [lia|].
  destruct (String.eqb k' k); simpl; lia.
Qed.

Lemma get_Some_In {V} (o : JsObject.t V) k x : JsObject.get o k = Some x -> In (k, x) o.
Proof.
  induction o as [|[k' x'] r IH]; simpl; [discriminate|].
  destruct (String.eqb_spec k' k) as [->|Hne].
  - intros [= ->]. now left.
  - intros H. right. now apply IH.
Qed.


(** ** The engine's view: refinement *)

Module JsFacts.

(** *** Grouping *)

Lemma group_step_plain acc a :
  (forall id, company_id a = Some id -> Js.inherited id = false) ->
  Js.group_step acc a = Normal (group_step acc a).
Proof.
  intros H. unfold Js.group_step, group_step.
  destruct (company_id a) as [id|]; [|reflexivity].
  destruct (negb (truthy (Some id))); [reflexivity|].
  destruct (JsObject.get acc id); [reflexivity|].
  now rewrite (H id eq_refl).
Qed.

Lemma reduce_group_plain assets : forall acc,
  plain_company_ids assets ->
  Js.reduce Js.group_step assets acc = Normal (fold_left group_step assets acc).
Proof.
  induction assets as [|a r IH]; intros acc H; simpl; [reflexivity|].
  rewrite group_step_plain by (intros id Hid; apply (H a id); [now left|exact Hid]).
  apply IH. intros x id Hx. apply H. now right.
Qed.

(** On plain company identifiers the grouping completes with the value of
    the fold over [group_step]. *)
Lemma assetsByCompany_plain assets :
  plain_company_ids assets -> Js.assetsByCompany assets = Normal (assetsByCompany assets).
Proof. apply reduce_group_plain. Qed.

Lemma group_step_keeps_plain_keys acc a acc' :
  (forall k, In k (JsObject.own_keys acc) -> Js.inherited k = false) ->
  Js.group_step acc a = Normal acc' ->
  forall k, In k (JsObject.own_keys acc') -> Js.inherited k = false.
Proof.
  intros Hacc. unfold Js.group_step.
  destruct (company_id a) as [id|]; [|now intros [= <-]].
  destruct (negb (truthy (Some id))); [now intros [= <-]|].
  destruct (JsObject.get acc id) eqn:G.
  - intros [= <-] k. rewrite own_keys_mutate. apply Hacc.
  - destruct (Js.inherited id) eqn:I; [discriminate|].
    intros [= <-] k. rewrite own_keys_mutate, own_keys_set, G.
    intros [Hk|[<-|[]]]%in_app_or; [now apply Hacc|exact I].
Qed.

Lemma reduce_group_throws assets : forall acc,
  (forall k, In k (JsObject.own_keys acc) -> Js.inherited k = false) ->
  (exists a id, In a assets /\ company_id a = Some id /\ Js.inherited id = true) ->
  Js.reduce Js.group_step assets acc = Throw Js.push_is_not_a_function.
Proof.
  induction assets as [|a r IH]; intros acc Hacc (x & id & Hx & Hid & Hinh);
    [destruct Hx|]. simpl.
  destruct (Js.group_step acc a) as [acc'|e] eqn:E.
  - destruct Hx as [<-|Hx].
    + exfalso. unfold Js.group_step in E. rewrite Hid in E.
      assert (Ht : truthy (Some id) = true).
      { unfold truthy. destruct (String.eqb_spec id ""); [subst; discriminate|reflexivity]. }
      rewrite Ht in E. simpl in E.
      assert (G : JsObject.get acc id = None).
      { apply get_None_not_own. intros Hin. apply Hacc in Hin. congruence. }
      rewrite G, Hinh in E. discriminate.
    + apply IH; [|eauto].
      eapply group_step_keeps_plain_keys; eassumption.
  - f_equal. unfold Js.group_step in E.
    destruct (company_id a) as [id'|]; [|discriminate].
    destruct (negb (truthy (Some id'))); [discriminate|].
    destruct (JsObject.get acc id'); [discriminate|].
    destruct (Js.inherited id'); [now injection E|discriminate].
Qed.

(** *** Tallying *)

Lemma get_lift o k : JsObject.get (lift o) k = option_map Js.Num (JsObject.get o k).
Proof.
  induction o as [|[k' n] r IH]; simpl; [reflexivity|].
  destruct (String.eqb k' k); [reflexivity|exact IH].
Qed.

Lemma set_lift o k n : JsObject.set (lift o) k (Js.Num n) = lift (JsObject.set o k n).
Proof.
  induction o as [|[k' n'] r IH]; simpl; [reflexivity|].
  destruct (String.eqb k' k); simpl; [reflexivity|]. now rewrite IH.
Qed.

Lemma not_proto_of_plain s : Js.inherited s = false -> String.eqb s "__proto__" = false.
Proof.
  destruct (String.eqb_spec s "__proto__") as [->|]; [discriminate|reflexivity].
Qed.

Lemma status_step_plain acc a :
  Js.inherited (status a) = false ->
  Js.status_step (lift acc) a = lift (status_step acc a).
Proof.
  intros H. unfold Js.status_step, status_step. rewrite get_lift.
  destruct (JsObject.get acc (status a)) as [n|]; simpl.
  - apply set_lift.
  - rewrite (not_proto_of_plain _ H), H. apply set_lift.
Qed.

(** On plain statuses the tally holds the numbers of the fold over
    [status_step]. *)
Lemma assetsByStatus_plain assets :
  plain_statuses assets -> Js.assetsByStatus assets = lift (assetsByStatus assets).
Proof.
  unfold Js.assetsByStatus, assetsByStatus.
  change (@JsObject.empty Js.Count) with (lift JsObject.empty).
  generalize (@JsObject.empty Z) as acc.
  induction assets as [|a r IH]; intros acc H; simpl; [reflexivity|].
  rewrite status_step_plain by (apply H; now left).
  apply IH. intros x Hx. apply H. now right.
Qed.

Lemma total_Num l : Js.total (map Js.Num l) = Some (sum_counts l).
Proof.
  unfold sum_counts. induction l as [|n r IH]; simpl; [reflexivity|]. now rewrite IH.
Qed.

Lemma Permutation_map_Num l l' :
  Permutation l (map Js.Num l') -> exists l0, l = map Js.Num l0 /\ Permutation l0 l'.
Proof.
  intros H. apply Permutation_map_inv in H as (l0 & -> & H).
  exists l0. split; [reflexivity|now symmetry].
Qed.

(** *** Totals *)

Lemma round_to_double_safe z : Z.abs z <= Js.max_safe_integer -> Js.round_to_double z = z.
Proof.
  unfold Js.round_to_double, Js.max_safe_integer. intros H.
  destruct (Z.ltb_spec (Z.abs z) (2 ^ 53)); [reflexivity|lia].
Qed.

Lemma fold_add_exact l : forall acc,
  Z.abs acc + fold_right Z.add 0 (map Z.abs l) <= Js.max_safe_integer ->
  fold_left Js.add l acc = acc + sum_counts l.
Proof.
  unfold sum_counts. induction l as [|x r IH]; intros acc H; simpl in *; [lia|].
  assert (Hr : 0 <= fold_right Z.add 0 (map Z.abs r)).
  { clear. induction r as [|y r IH]; simpl; lia. }
  unfold Js.add at 2. rewrite round_to_double_safe by lia.
  rewrite IH by lia. lia.
Qed.

Lemma fold_stats_fields l : forall acc,
  fold_left Js.stats_step l acc =
  {| totalSchedules := fold_left Js.add (map total_schedules l) (totalSchedules acc);
     overdueMaintenances :=
       fold_left Js.add (map overdue_maintenances l) (overdueMaintenances acc);
     upcomingMaintenances :=
       fold_left Js.add (map upcoming_maintenances l) (upcomingMaintenances acc) |}.
Proof.
  induction l as [|s r IH]; intros acc; simpl; [now destruct acc|].
  now rewrite IH.
Qed.

Lemma safe_sum_perm l l' : Permutation l l' -> Js.safe_sum l -> Js.safe_sum l'.
Proof.
  unfold Js.safe_sum. intros Hp H.
  pose proof (sum_counts_perm _ _ (Permutation_map Z.abs Hp)) as E.
  unfold sum_counts in E. now rewrite <- E.
Qed.

Lemma safe_perm ss ss' : Permutation ss ss' -> Js.safe ss -> Js.safe ss'.
Proof.
  intros Hp (H1 & H2 & H3).
  split; [|split].
  - exact (safe_sum_perm _ _ (Permutation_map total_schedules Hp) H1).
  - exact (safe_sum_perm _ _ (Permutation_map overdue_maintenances Hp) H2).
  - exact (safe_sum_perm _ _ (Permutation_map upcoming_maintenances Hp) H3).
Qed.

(** Within the safe range the totals are the exact sums. *)
Lemma maintenanceStats_safe (o : JsObject.t ClientMaintenanceSummary) :
  Js.safe (map snd o) ->
  Js.maintenanceStats o =
  {| totalSchedules := sum_counts (map total_schedules (map snd o));
     overdueMaintenances := sum_counts (map overdue_maintenances (map snd o));
     upcomingMaintenances := sum_counts (map upcoming_maintenances (map snd o)) |}.
Proof.
  intros Hs. unfold Js.maintenanceStats.
  apply (safe_perm _ _ (Permutation_sym (values_perm o))) in Hs.
  destruct Hs as (H1 & H2 & H3). unfold Js.safe_sum in *.
  rewrite fold_stats_fields. simpl.
  rewrite !fold_add_exact by (simpl; assumption). simpl.
  f_equal; apply sum_counts_perm, Permutation_map, values_perm.
Qed.

End JsFacts.

Import JsFacts.

(** The count read under a status, in closed form. *)
Lemma status_count_exact assets s :
  JsObject.get (assetsByStatus assets) s =
  match length (filter (has_status s) assets) with
  | O => None
  | S n => Some (Z.of_nat (S n))
  end.
Proof.
  pose proof (count_of_assetsByStatus assets s) as Hcount.
  destruct (JsObject.get (assetsByStatus assets) s) as [n|] eqn:G.
  - rewrite or_zero_Some in Hcount.
    assert (Hkey : In s (JsObject.own_keys (assetsByStatus assets))).
    { destruct (in_dec string_dec s (JsObject.own_keys (assetsByStatus assets)))
        as [|Hno]; [assumption|]. apply get_None_not_own in Hno. congruence. }
    apply status_key_has_asset in Hkey as [[]|(a & Ha & Hst)].
    assert (Hf : In a (filter (has_status s) assets)).
    { apply filter_In. split; [exact Ha|]. unfold has_status. rewrite Hst.
      apply String.eqb_refl. }
    destruct (filter (has_status s) assets); [contradiction|].
    simpl length in *. now rewrite Hcount.
  - simpl in Hcount.
    destruct (length (filter (has_status s) assets)); [reflexivity|lia].
Qed.

Lemma no_array_index_first_appearances ks :
  no_array_index ks = true -> no_array_index (first_appearances ks) = true.
Proof.
  intros H. unfold first_appearances.
  assert (G : forall seen, no_array_index seen = true ->
              no_array_index (fold_left add_if_new ks seen) = true).
  { induction ks as [|k r IH]; intros seen Hseen; simpl; [exact Hseen|].
    simpl in H. apply andb_true_iff in H as [Hk Hr].
    apply IH; [exact Hr|]. unfold add_if_new.
    destruct (existsb (String.eqb k) seen); [exact Hseen|].
    unfold no_array_index. rewrite forallb_app. simpl.
    unfold no_array_index in Hseen. now rewrite Hseen, Hk. }
  now apply G.
Qed.

Lemma firstn_exact {A} (l l' : list A) : firstn (length l) (l ++ l') = l.
Proof. rewrite firstn_app, firstn_all, Nat.sub_diag. simpl. apply app_nil_r. Qed.

Lemma visible_entry_was_fetched fetch assets n k s :
  JsObject.get (visible fetch assets n) k = Some s ->
  In (Fetch k (Resolved s)) (firstn n (trace (snd (after_load fetch assets)))).
Proof.
  set (ks := JsObject.keys (assetsByCompany assets)).
  rewrite visible_spec. fold ks.
  destruct (loop_result fetch ks JsObject.empty) as [m|e] eqn:Hloop; [|discriminate].
  destruct (Nat.leb_spec n (S (length (loop_events fetch ks)))) as [Hle|Hgt]; [discriminate|].
  intros Hget.
  pose proof (loop_complete fetch assets m Hloop) as [Hkeys Hin]. fold ks in Hkeys, Hin.
  pose proof (loop_result_Normal fetch ks _ _ Hloop) as Hall.
  rewrite trace_after_load. fold ks. rewrite firstn_app.
  apply in_or_app. left. rewrite firstn_all2 by (simpl; lia).
  right. rewrite loop_events_resolved by assumption.
  assert (Hk : In k ks).
  { rewrite <- Hkeys.
    destruct (in_dec string_dec k (JsObject.own_keys m)) as [|Hno]; [assumption|].
    apply get_None_not_own in Hno. congruence. }
  destruct (Hin k Hk) as (s' & Hf & Hg).
  apply in_map_iff. exists k. split; [|assumption]. congruence.
Qed.

Lemma visible_entry_stays fetch assets n n' k s :
  (n <= n')%nat ->
  JsObject.get (visible fetch assets n) k = Some s ->
  JsObject.get (visible fetch assets n') k = Some s.
Proof.
  intros Hle. rewrite !visible_spec.
  destruct (loop_result fetch _ JsObject.empty) as [m|e]; [|discriminate].
  destruct (Nat.leb_spec n (S (length (loop_events fetch (JsObject.keys (assetsByCompany assets))))));
    [discriminate|].
  destruct (Nat.leb_spec n' (S (length (loop_events fetch (JsObject.keys (assetsByCompany assets))))));
    [lia|trivial].
Qed.

Lemma plain_mixed : plain_company_ids assets_mixed /\ plain_statuses assets_mixed.
Proof.
  split.
  - intros a id [<-|[<-|[<-|[<-|[]]]]] [= <-]; reflexivity.
  - intros a [<-|[<-|[<-|[<-|[]]]]]; reflexivity.
Qed.

Lemma safe_A_C : Js.safe [summary_A; summary_C].
Proof. repeat split; unfold Js.safe_sum, Js.max_safe_integer; simpl; lia. Qed.

(** * The claims *)

(** C1 (as amended). When the fetch for one company fails, the loader
    returns normally (nothing is thrown to the caller) and the failure is
    logged; the loop stops at that company, so the companies after it in
    iteration order are not fetched; and no company has an entry in the final
    summary mapping, which keeps its empty value, so the totals are all
    zero. *)
Theorem failed_fetch_stops_the_loop
  (fetch : string -> Settled ClientMaintenanceSummary) (assets : list Asset)
  (before : list string) (k : string) (e : Error) (rest : list string) :
  JsObject.keys (assetsByCompany assets) = before ++ k :: rest ->
  (forall k', In k' before -> exists s, fetch k' = Resolved s) ->
  fetch k = Rejected e ->
  let c := snd (after_load fetch assets) in
  fst (after_load fetch assets) = Normal tt
  /\ attempted (trace c) = before ++ [k]
  /\ In (ConsoleError e) (trace c)
  /\ maintenanceSummaries c = JsObject.empty
  /\ maintenanceStats (maintenanceSummaries c) = zero_stats.
Proof.
  intros Hks Hbefore Hk. cbv zeta. unfold after_load. rewrite load_spec. cbv zeta.
  rewrite Hks.
  assert (Hb : forallb (resolved fetch) before = true)
    by (apply forallb_forall; intros k' Hk'; now apply resolved_true, Hbefore).
  destruct (loop_first_rejection fetch before k e rest JsObject.empty Hb Hk) as [Hres Hev].
  rewrite Hres, Hev. simpl.
  split; [reflexivity|]. split; [|split; [|split; reflexivity]].
  - unfold attempted. rewrite flat_map_app. simpl. rewrite app_nil_r.
    apply attempted_fetches.
  - right. apply in_or_app. right. now left.
Qed.

(** The instance of C1 (as amended) for the companies [A,B,C], fetch(B)
    rejecting. *)
Lemma failed_fetch_stops_the_loop_ABC :
  let c := snd (after_load fetch_B_rejects assets_ABC) in
  fst (after_load fetch_B_rejects assets_ABC) = Normal tt
  /\ attempted (trace c) = ["A"; "B"]
  /\ In (ConsoleError "not found") (trace c)
  /\ maintenanceSummaries c = JsObject.empty
  /\ maintenanceStats (maintenanceSummaries c) = zero_stats.
Proof.
  apply (failed_fetch_stops_the_loop fetch_B_rejects assets_ABC ["A"] "B" "not found" ["C"]).
  - reflexivity.
  - intros k' [<-|[]]. eexists. reflexivity.
  - reflexivity.
Defined.

(** C1 as stated does not hold: for [A,B,C] with fetch(B) rejecting, the
    fetch for C is never attempted, the final summary mapping does not hold A
    and C, and the totals are not {8,1,3}. *)
Lemma failure_aborts_the_loop_ABC :
  let c := snd (after_load fetch_B_rejects assets_ABC) in
  JsObject.keys (assetsByCompany assets_ABC) = ["A"; "B"; "C"]
  /\ ~ In "C" (attempted (trace c))
  /\ JsObject.keys (maintenanceSummaries c) <> ["A"; "C"]
  /\ maintenanceStats (maintenanceSummaries c)
     <> {| totalSchedules := 8; overdueMaintenances := 1; upcomingMaintenances := 3 |}.
Proof.
  cbv zeta. split; [reflexivity|]. split; [|split]; vm_compute.
  - intros [H|[H|[]]]; discriminate H.
  - discriminate.
  - discriminate.
Qed.

(** C2 (as amended). During the enrichment pass the committed summary
    mapping stays empty as long as the pass has made no more calls than
    [setLoading(true)] and the fetches of all companies; when every fetch
    resolved, the call right after the last fetch commits the complete
    mapping (every company's summary, in the company-identifier iteration
    order), and from then on all entries are visible together. When a fetch
    rejects, no entry ever becomes visible. No entry is visible before the
    fetch for its company resolves, and an entry that is visible stays
    visible (entries are never removed). *)
Theorem summaries_become_visible_at_once
  (fetch : string -> Settled ClientMaintenanceSummary) (assets : list Asset) :
  let ks := JsObject.keys (assetsByCompany assets) in
  let tr := trace (snd (after_load fetch assets)) in
  let last_fetch := S (length ks) in
  (if forallb (resolved fetch) ks
   then exists m,
          complete fetch ks m
          /\ firstn last_fetch tr = SetLoading true :: map (fun k => Fetch k (fetch k)) ks
          /\ nth_error tr last_fetch = Some (SetMaintenanceSummaries m)
          /\ (forall n, (n <= last_fetch)%nat -> visible fetch assets n = JsObject.empty)
          /\ (forall n, (last_fetch < n)%nat -> visible fetch assets n = m)
   else forall n, visible fetch assets n = JsObject.empty)
  /\ (forall n k s, JsObject.get (visible fetch assets n) k = Some s ->
                    In (Fetch k (Resolved s)) (firstn n tr))
  /\ (forall n n' k s, (n <= n')%nat ->
                       JsObject.get (visible fetch assets n) k = Some s ->
                       JsObject.get (visible fetch assets n') k = Some s).
Proof.
  cbv zeta. set (ks := JsObject.keys (assetsByCompany assets)).
  split; [|split; [apply visible_entry_was_fetched|apply visible_entry_stays]].
  destruct (forallb (resolved fetch) ks) eqn:Hall.
  - destruct (loop_result_resolved fetch ks JsObject.empty Hall) as [m Hm].
    pose proof (loop_events_resolved fetch ks Hall) as Hev.
    assert (Hlen : length (SetLoading true :: loop_events fetch ks) = S (length ks))
      by (simpl; now rewrite Hev, length_map).
    exists m. split; [now apply loop_complete|].
    rewrite trace_after_load. fold ks. rewrite Hm, <- Hlen.
    split; [|split; [|split]].
    + rewrite firstn_exact, Hev. reflexivity.
    + rewrite nth_error_app2, Nat.sub_diag by lia. reflexivity.
    + intros n Hn. rewrite visible_spec. fold ks. rewrite Hm.
      simpl in Hlen. injection Hlen as Hlen. rewrite Hlen.
      destruct (Nat.leb_spec n (S (length ks))); [reflexivity|simpl in Hn; lia].
    + intros n Hn. rewrite visible_spec. fold ks. rewrite Hm.
      simpl in Hlen. injection Hlen as Hlen. rewrite Hlen.
      destruct (Nat.leb_spec n (S (length ks))); [simpl in Hn; lia|reflexivity].
  - intros n. rewrite visible_spec. fold ks.
    destruct (loop_result_rejected fetch ks JsObject.empty Hall) as [e He].
    now rewrite He.
Qed.

(** C2 (as amended) on the companies [A,B,C], every fetch resolving: after
    the four calls up to the last fetch nothing is visible, after the fifth
    the three entries are. *)
Lemma summaries_become_visible_at_once_ABC :
  (forall n, (n <= 4)%nat -> visible fetch_all_resolve assets_ABC n = JsObject.empty)
  /\ exists m, complete fetch_all_resolve ["A"; "B"; "C"] m
               /\ visible fetch_all_resolve assets_ABC 5 = m.
Proof.
  destruct (proj1 (summaries_become_visible_at_once fetch_all_resolve assets_ABC))
    as (m & Hcomplete & _ & _ & Hbefore & Hafter).
  split; [exact Hbefore|].
  exists m. split; [exact Hcomplete|]. apply Hafter. simpl. lia.
Defined.

(** C2 as stated does not hold: with every fetch resolving, the entry of
    company A is not in the committed mapping right after its fetch
    resolved. *)
Lemma entries_not_visible_as_resolved :
  ~ visible_as_resolved fetch_all_resolve assets_ABC.
Proof.
  intros H. specialize (H 1%nat "A" _ eq_refl). discriminate.
Qed.

(** C3. All-or-nothing commit, from any prior state [c] of the component:
    if the fetch for some company rejects, the committed mapping is left at
    its prior value and [setMaintenanceSummaries] is not called; if every
    fetch resolves, it is called exactly once, with the complete mapping; it
    is never called more than once; the loading flag is false afterwards. *)
Theorem commit_is_all_or_nothing
  (fetch : string -> Settled ClientMaintenanceSummary) (assets : list Asset) (c : Component) :
  let ks := JsObject.keys (assetsByCompany assets) in
  let c' := snd (loadMaintenanceSummaries fetch assets c) in
  ((exists k e, In k ks /\ fetch k = Rejected e) ->
     maintenanceSummaries c' = maintenanceSummaries c
     /\ commit_count (trace c') = commit_count (trace c))
  /\ ((forall k, In k ks -> exists s, fetch k = Resolved s) ->
     complete fetch ks (maintenanceSummaries c')
     /\ commit_count (trace c') = S (commit_count (trace c)))
  /\ (commit_count (trace c') <= S (commit_count (trace c)))%nat
  /\ loading c' = false.
Proof.
  cbv zeta. rewrite load_spec. cbv zeta.
  set (ks := JsObject.keys (assetsByCompany assets)).
  assert (Hcount : forall tail,
    commit_count (trace c ++ SetLoading true :: loop_events fetch ks ++ tail)
    = (commit_count (trace c) + commit_count tail)%nat).
  { intros tail. unfold commit_count. rewrite filter_app. simpl.
    rewrite filter_app, loop_events_no_commit, length_app. reflexivity. }
  destruct (loop_result fetch ks JsObject.empty) as [m|e] eqn:Hloop; simpl;
    rewrite Hcount; unfold commit_count; simpl.
  - split; [|split; [|split; [lia|reflexivity]]].
    + intros Hrej. apply some_rejected in Hrej.
      apply loop_result_Normal in Hloop. congruence.
    + intros _. split; [now apply loop_complete|lia].
  - split; [|split; [|split; [lia|reflexivity]]].
    + intros _. split; [reflexivity|lia].
    + intros Hall. exfalso.
      assert (forallb (resolved fetch) ks = true)
        by (apply forallb_forall; intros k Hk; now apply resolved_true, Hall).
      destruct (loop_result_resolved fetch ks JsObject.empty H). congruence.
Qed.

(** C3 at the companies [A,B,C], from the mounted component: with fetch(B)
    rejecting nothing is committed, with every fetch resolving the complete
    mapping is committed once. *)
Lemma commit_is_all_or_nothing_ABC :
  (let c' := snd (loadMaintenanceSummaries fetch_B_rejects assets_ABC mounted) in
   maintenanceSummaries c' = JsObject.empty
   /\ commit_count (trace c') = 0%nat)
  /\ (let c' := snd (loadMaintenanceSummaries fetch_all_resolve assets_ABC mounted) in
      complete fetch_all_resolve ["A"; "B"; "C"] (maintenanceSummaries c')
      /\ commit_count (trace c') = 1%nat).
Proof.
  split.
  - apply (proj1 (commit_is_all_or_nothing fetch_B_rejects assets_ABC mounted)).
    exists "B", "not found". split; [simpl; auto|reflexivity].
  - apply (proj1 (proj2 (commit_is_all_or_nothing fetch_all_resolve assets_ABC mounted))).
    intros k _. exists summary_A. reflexivity.
Defined.

(** C4 (as amended). For every asset list in which no company identifier
    and no status is the name of a property inherited from
    [Object.prototype], the grouping completes and the flattening of all
    company groups holds exactly the input assets whose company identifier is
    neither null nor empty, each once; the groups have distinct keys, and
    every group is the subsequence, in input order, of the assets filed under
    its key. An asset whose company identifier is null or empty is in no
    group, yet the count of its status counts it like any other asset: the
    count of a status is the number of input assets having it. *)
Theorem groups_are_stable_partition (assets : list Asset) :
  plain_company_ids assets ->
  plain_statuses assets ->
  exists groups,
    Js.assetsByCompany assets = Normal groups
    /\ Permutation (List.concat (JsObject.values groups)) (filter grouped assets)
    /\ NoDup (JsObject.keys groups)
    /\ (forall k g, In (k, g) (JsObject.entries groups) ->
          g = filter (in_group k) assets /\ g <> [])
    /\ (forall a k g, grouped a = false -> In (k, g) (JsObject.entries groups) -> ~ In a g)
    /\ (forall s, JsObject.get (Js.assetsByStatus assets) s =
                  match length (filter (has_status s) assets) with
                  | O => None
                  | S n => Some (Js.Num (Z.of_nat (S n)))
                  end).
Proof.
  intros Hc Hs. exists (assetsByCompany assets).
  split; [now apply assetsByCompany_plain|].
  split; [|split; [|split; [|split]]].
  - rewrite (concat_Permutation _ _ (values_perm _)).
    unfold assetsByCompany. now rewrite concat_fold_group.
  - apply NoDup_keys, NoDup_assetsByCompany.
  - apply entry_of_assetsByCompany.
  - intros a k g Hg Hin Ha.
    apply entry_of_assetsByCompany in Hin as [-> _].
    apply filter_In in Ha as [_ Ha]. apply in_group_grouped in Ha. congruence.
  - intros s. rewrite (assetsByStatus_plain assets Hs), get_lift, status_count_exact.
    now destruct (length (filter (has_status s) assets)).
Qed.

(** C4 (as amended) on the mixed list. *)
Lemma groups_are_stable_partition_mixed :
  exists groups,
    Js.assetsByCompany assets_mixed = Normal groups
    /\ Permutation (List.concat (JsObject.values groups)) (filter grouped assets_mixed)
    /\ NoDup (JsObject.keys groups)
    /\ (forall k g, In (k, g) (JsObject.entries groups) ->
          g = filter (in_group k) assets_mixed /\ g <> [])
    /\ (forall a k g, grouped a = false -> In (k, g) (JsObject.entries groups) -> ~ In a g)
    /\ (forall s, JsObject.get (Js.assetsByStatus assets_mixed) s =
                  match length (filter (has_status s) assets_mixed) with
                  | O => None
                  | S n => Some (Js.Num (Z.of_nat (S n)))
                  end).
Proof.
  apply groups_are_stable_partition; apply plain_mixed.
Defined.

(** C4 as stated does not hold: an asset whose company identifier is the
    empty string has a company identifier other than null and is in no
    group; with the company identifier "constructor" the grouping throws; an
    asset whose status is "__proto__" is not counted. *)
Lemma groups_miss_blank_and_inherited :
  (has_company_id asset_blank_company = true
   /\ Js.assetsByCompany [asset_blank_company] = Normal JsObject.empty
   /\ ~ Permutation (List.concat (JsObject.values (@JsObject.empty (list Asset))))
                    (filter has_company_id [asset_blank_company]))
  /\ (has_company_id asset_constructor_company = true
      /\ Js.assetsByCompany [asset_constructor_company] = Throw Js.push_is_not_a_function)
  /\ JsObject.get (Js.assetsByStatus [asset_proto_status]) (status asset_proto_status) = None.
Proof.
  split; [|split; [split|]]; try reflexivity.
  split; [reflexivity|]. split; [reflexivity|].
  simpl. intros H. apply Permutation_nil in H. discriminate.
Qed.

(** C5 (as amended). For every asset list in which no status is the name
    of a property inherited from [Object.prototype], the values of the
    status-count mapping are numbers and add up to the number of assets. *)
Theorem status_counts_sum_to_total (assets : list Asset) :
  plain_statuses assets ->
  Js.total (JsObject.values (Js.assetsByStatus assets)) = Some (totalAssets assets).
Proof.
  intros Hs. rewrite (assetsByStatus_plain assets Hs).
  pose proof (values_perm (lift (assetsByStatus assets))) as Hp.
  unfold lift in Hp at 2. rewrite map_map in Hp. simpl in Hp.
  rewrite <- (map_map snd Js.Num) in Hp.
  apply Permutation_map_Num in Hp as (l0 & -> & Hp).
  rewrite total_Num, (sum_counts_perm _ _ Hp).
  unfold assetsByStatus, totalAssets. now rewrite sum_fold_status.
Qed.

(** C5 (as amended) on the mixed list. *)
Lemma status_counts_sum_to_total_mixed :
  Js.total (JsObject.values (Js.assetsByStatus assets_mixed)) = Some (totalAssets assets_mixed).
Proof.
  apply status_counts_sum_to_total. apply plain_mixed.
Defined.

(** C5 as stated does not hold: of two assets, one with the status
    "__proto__", the status-count mapping counts one. *)
Lemma status_counts_miss_inherited_status :
  Js.total (JsObject.values (Js.assetsByStatus [asset_proto_status; asset_of "a1" None]))
  = Some 1
  /\ totalAssets [asset_proto_status; asset_of "a1" None] = 2
  /\ Js.total (JsObject.values (Js.assetsByStatus [asset_proto_status; asset_of "a1" None]))
     <> Some (totalAssets [asset_proto_status; asset_of "a1" None]).
Proof. split; [reflexivity|]. split; [reflexivity|]. discriminate. Qed.

(** C6. The loader's calls are [setLoading(true)], then a middle part that
    holds every fetch and never sets the flag, then [setLoading(false)]: the
    flag is true from the first call to the end of the middle part, whatever
    the fetches did, and false once the pass has finished. *)
Theorem loading_flag_lifecycle
  (fetch : string -> Settled ClientMaintenanceSummary) (assets : list Asset) :
  let c := snd (after_load fetch assets) in
  exists middle,
    trace c = SetLoading true :: middle ++ [SetLoading false]
    /\ (forall b, ~ In (SetLoading b) middle)
    /\ attempted (trace c) = attempted middle
    /\ (forall n, (1 <= n <= S (length middle))%nat ->
          view_loading (view_after mounted_view (firstn n (trace c))) = true)
    /\ view_loading (view_after mounted_view (trace c)) = false
    /\ loading c = false.
Proof.
  cbv zeta. unfold after_load. rewrite load_spec. cbv zeta.
  set (ks := JsObject.keys (assetsByCompany assets)).
  set (last := match loop_result fetch ks JsObject.empty with
               | Normal m => SetMaintenanceSummaries m
               | Throw e => ConsoleError e
               end).
  assert (Hlast : forall b, last <> SetLoading b)
    by (intros b; unfold last; destruct (loop_result fetch ks JsObject.empty); discriminate).
  assert (Hmid : forall b, ~ In (SetLoading b) (loop_events fetch ks ++ [last])).
  { intros b [H|[H|[]]]%in_app_or.
    - exact (loop_events_no_setLoading fetch ks b H).
    - exact (Hlast b H). }
  exists (loop_events fetch ks ++ [last]).
  assert (Htr : trace (snd (Normal tt,
             match loop_result fetch ks JsObject.empty with
             | Normal m =>
                 {| maintenanceSummaries := m; loading := false;
                    trace := trace mounted ++ SetLoading true :: loop_events fetch ks
                               ++ [SetMaintenanceSummaries m; SetLoading false] |}
             | Throw e =>
                 {| maintenanceSummaries := maintenanceSummaries mounted; loading := false;
                    trace := trace mounted ++ SetLoading true :: loop_events fetch ks
                               ++ [ConsoleError e; SetLoading false] |}
             end)) = SetLoading true :: (loop_events fetch ks ++ [last]) ++ [SetLoading false]).
  { unfold last. destruct (loop_result fetch ks JsObject.empty); simpl;
      now rewrite <- app_assoc. }
  rewrite Htr. split; [reflexivity|]. split; [exact Hmid|]. split; [|split; [|split]].
  - unfold attempted. simpl. rewrite flat_map_app. simpl. now rewrite app_nil_r.
  - intros n [H1 H2]. destruct n as [|n]; [lia|]. simpl firstn.
    rewrite firstn_app.
    replace (n - length (loop_events fetch ks ++ [last]))%nat with 0%nat by lia.
    simpl firstn at 2. rewrite app_nil_r. simpl view_after.
    rewrite view_loading_no_set; [reflexivity|].
    intros b Hb. apply (Hmid b).
    rewrite <- (firstn_skipn n (loop_events fetch ks ++ [last])).
    apply in_or_app. now left.
  - simpl view_after. rewrite view_after_app. reflexivity.
  - destruct (loop_result fetch ks JsObject.empty); reflexivity.
Qed.

(** C7. The table receives the first five assets; it has at most five
    rows (five as soon as there are five assets); a row shows name, tag and
    status, the company name or "Unassigned", and the location or
    "Not specified"; the two fallbacks apply when the company, its name or the
    location is absent. *)
Theorem recent_assets_table_is_bounded (assets : list Asset) :
  table_data assets = firstn 5 assets
  /\ (length (recent_assets_table assets) <= 5)%nat
  /\ length (recent_assets_table assets) = Nat.min 5 (length assets)
  /\ (forall i record,
        nth_error (table_data assets) i = Some record ->
        nth_error (recent_assets_table assets) i =
        Some [ Some (name record); Some (asset_tag record); Some (status record);
               Some (or_else (match company record with
                              | Some c => company_name c
                              | None => None
                              end) "Unassigned");
               Some (or_else (location record) "Not specified") ])
  /\ (forall value record,
        company record = None \/ company record = Some {| company_name := None |} ->
        render_company value record = "Unassigned")
  /\ render_location None = "Not specified".
Proof.
  assert (Hlen : length (recent_assets_table assets) = Nat.min 5 (length assets)).
  { unfold recent_assets_table, DataTable, table_data.
    now rewrite length_map, length_firstn. }
  split; [reflexivity|]. split; [lia|]. split; [exact Hlen|]. split; [|split].
  - intros i record H. unfold recent_assets_table, DataTable.
    rewrite nth_error_map, H. reflexivity.
  - intros value record [H|H]; unfold render_company; now rewrite H.
  - reflexivity.
Qed.

(** A hundred assets give five rows. *)
Example hundred_assets_five_rows :
  length (recent_assets_table (repeat (asset_of "a" None) 100)) = 5%nat.
Proof. reflexivity. Qed.

(** C8 (as amended). When, for each of the three counts, the magnitudes
    over all entries add up to at most [Number.MAX_SAFE_INTEGER], assigning
    the same entries (one per company) to the summary mapping in another
    order gives the same three totals. *)
Theorem totals_fold_order_independent (ins ins' : list (string * ClientMaintenanceSummary)) :
  NoDup (map fst ins) ->
  Permutation ins ins' ->
  Js.safe (map snd ins) ->
  Js.maintenanceStats (from_insertions ins) = Js.maintenanceStats (from_insertions ins').
Proof.
  intros Hnd Hp Hsafe.
  assert (Hnd' : NoDup (map fst ins'))
    by (eapply Permutation_NoDup; [|exact Hnd]; now apply Permutation_map).
  assert (Hsafe' : Js.safe (map snd ins'))
    by (eapply safe_perm; [|exact Hsafe]; now apply Permutation_map).
  rewrite !from_insertions_fresh by assumption.
  rewrite !maintenanceStats_safe by assumption.
  f_equal; apply sum_counts_perm; repeat apply Permutation_map; exact Hp.
Qed.

(** C8 (as amended) on the entries of A and C, in both orders. *)
Lemma totals_fold_order_independent_witness :
  Js.maintenanceStats (from_insertions [("A", summary_A); ("C", summary_C)]) =
  Js.maintenanceStats (from_insertions [("C", summary_C); ("A", summary_A)]).
Proof.
  apply totals_fold_order_independent.
  - simpl. repeat constructor; simpl; intuition discriminate.
  - apply perm_swap.
  - exact safe_A_C.
Defined.

(** C8 as stated does not hold: with the total-schedule counts 2^53, 1 and
    1 the total is 2^53 when the large entry was inserted first and 2^53 + 2
    when it was inserted last. *)
Lemma totals_fold_depends_on_order_beyond_2_53 :
  Permutation [("A", summary_big); ("B", summary_one); ("C", summary_one)]
              [("B", summary_one); ("C", summary_one); ("A", summary_big)]
  /\ totalSchedules
       (Js.maintenanceStats
          (from_insertions [("A", summary_big); ("B", summary_one); ("C", summary_one)]))
     = 2 ^ 53
  /\ totalSchedules
       (Js.maintenanceStats
          (from_insertions [("B", summary_one); ("C", summary_one); ("A", summary_big)]))
     = 2 ^ 53 + 2.
Proof.
  split; [|split; vm_compute; reflexivity].
  apply Permutation_sym. change [("B", summary_one); ("C", summary_one); ("A", summary_big)]
    with ([("B", summary_one); ("C", summary_one)] ++ [("A", summary_big)]).
  apply Permutation_sym, (Permutation_cons_append [("B", summary_one); ("C", summary_one)]).
Qed.

(** C9. When the summary mapping contains no entries, the totals fold
    returns zero for total schedules, zero for overdue maintenances and zero
    for upcoming maintenances. *)
Theorem totals_fold_empty (summaries : JsObject.t ClientMaintenanceSummary) :
  JsObject.entries summaries = [] ->
  totalSchedules (maintenanceStats summaries) = 0
  /\ overdueMaintenances (maintenanceStats summaries) = 0
  /\ upcomingMaintenances (maintenanceStats summaries) = 0.
Proof.
  intros Hnone. unfold maintenanceStats, JsObject.values.
  rewrite Hnone. simpl. auto.
Qed.

(** C9 on the mapping the component mounts with. *)
Lemma totals_fold_empty_mounted :
  totalSchedules (maintenanceStats (maintenanceSummaries mounted)) = 0
  /\ overdueMaintenances (maintenanceStats (maintenanceSummaries mounted)) = 0
  /\ upcomingMaintenances (maintenanceStats (maintenanceSummaries mounted)) = 0.
Proof.
  apply totals_fold_empty. reflexivity.
Defined.


(** * Further properties *)

(** X1. The companies the pass fetches are an initial part of the company
    keys in iteration order; no company is fetched twice, and every fetched
    identifier is the non-empty company identifier of some asset. *)
Theorem fetches_are_a_prefix_of_the_companies
  (fetch : string -> Settled ClientMaintenanceSummary) (assets : list Asset) :
  let fetched := attempted (trace (snd (after_load fetch assets))) in
  (exists rest, JsObject.keys (assetsByCompany assets) = fetched ++ rest)
  /\ NoDup fetched
  /\ (forall k, In k fetched ->
        k <> "" /\ exists a, In a assets /\ company_id a = Some k).
Proof.
  cbv zeta. rewrite attempted_after_load.
  destruct (attempted_loop_prefix fetch (JsObject.keys (assetsByCompany assets)))
    as [rest Hrest].
  split; [eauto|]. split.
  - pose proof (NoDup_company_keys assets) as Hnd. rewrite Hrest in Hnd.
    now apply NoDup_app_remove_r in Hnd.
  - intros k Hk. apply company_key_has_asset. rewrite Hrest.
    apply in_or_app. now left.
Qed.

(** X2. When no asset has a truthy company identifier (in particular for
    the empty list) the pass issues no fetch at all: it sets the loading flag,
    commits the empty mapping and clears the flag. *)
Theorem no_company_no_fetch
  (fetch : string -> Settled ClientMaintenanceSummary) (assets : list Asset) :
  (forall a, In a assets -> grouped a = false) ->
  after_load fetch assets =
  (Normal tt,
   {| maintenanceSummaries := JsObject.empty;
      loading := false;
      trace := [SetLoading true; SetMaintenanceSummaries JsObject.empty; SetLoading false] |}).
Proof.
  intros H. unfold after_load. rewrite load_spec. cbv zeta.
  rewrite (no_grouped_no_groups assets H). reflexivity.
Qed.

(** X2 on an asset without company and one with a blank identifier. *)
Lemma no_company_no_fetch_witness :
  after_load fetch_B_rejects [asset_of "p1" None; asset_blank_company] =
  (Normal tt,
   {| maintenanceSummaries := JsObject.empty;
      loading := false;
      trace := [SetLoading true; SetMaintenanceSummaries JsObject.empty; SetLoading false] |}).
Proof.
  apply no_company_no_fetch.
  intros a [<-|[<-|[]]]; reflexivity.
Defined.



(** X4. Every card of the per-company overview has a non-empty key, and its
    asset count is the number of input assets carrying that company
    identifier: at least one, at most the total. *)
Theorem company_card_counts_its_assets (assets : list Asset) (v : View) (card : CompanyCard) :
  In card (company_overview (AssetDashboard assets v)) ->
  card_key card <> ""
  /\ card_assetCount card = Z.of_nat (length (filter (in_group (card_key card)) assets))
  /\ 1 <= card_assetCount card <= totalAssets assets.
Proof.
  intros (k & g & Hin & ->)%company_overview_cards.
  apply entry_of_assetsByCompany in Hin as [-> Hne]. simpl.
  set (g := filter (in_group k) assets) in *.
  assert (Hlen : (1 <= length g <= length assets)%nat).
  { split.
    - destruct g; [contradiction|simpl; lia].
    - apply filter_length_le. }
  split; [|split; [reflexivity|unfold totalAssets; lia]].
  destruct g as [|a g'] eqn:E; [contradiction|].
  assert (Ha : In a (filter (in_group k) assets)) by (fold g; rewrite E; now left).
  apply filter_In in Ha as [_ Ha]. now apply in_group_true in Ha.
Qed.

(** X4 on the first card of the mixed list. *)
Lemma company_card_counts_its_assets_witness :
  let card := {| card_key := "acme"; card_companyName := "Unassigned";
                 card_assetCount := 2; card_summary := None |} in
  card_key card <> ""
  /\ card_assetCount card = Z.of_nat (length (filter (in_group (card_key card)) assets_mixed))
  /\ 1 <= card_assetCount card <= totalAssets assets_mixed.
Proof.
  apply (company_card_counts_its_assets assets_mixed mounted_view).
  left. reflexivity.
Defined.

(** X5. The cards have distinct keys, and their asset counts together with
    the number of assets without a truthy company identifier add up to the
    "Total Assets" card. *)
Theorem company_cards_account_for_every_asset (assets : list Asset) (v : View) :
  let cards := company_overview (AssetDashboard assets v) in
  NoDup (map card_key cards)
  /\ sum_counts (map card_assetCount cards)
     + Z.of_nat (length (filter (fun a => negb (grouped a)) assets))
     = total_assets_card (AssetDashboard assets v).
Proof.
  cbv zeta. rewrite card_keys, card_counts. split; [apply NoDup_company_keys|].
  rewrite sum_lengths_concat.
  rewrite (Permutation_length
             (concat_Permutation _ _ (values_perm (assetsByCompany assets)))).
  unfold assetsByCompany.
  rewrite (Permutation_length (concat_fold_group assets JsObject.empty)).
  simpl. unfold totalAssets. rewrite <- (filter_split_length grouped assets). lia.
Qed.

(** X6. The name on a company card is never blank and comes from the first
    asset of that company in the input list: that asset's company name, or
    "Unassigned" when it has none, whatever later assets of the company
    carry. *)
Theorem company_card_is_named_after_first_asset
  (assets : list Asset) (v : View) (card : CompanyCard) :
  In card (company_overview (AssetDashboard assets v)) ->
  card_companyName card <> ""
  /\ exists before first rest,
       assets = before ++ first :: rest
       /\ (forall a, In a before -> in_group (card_key card) a = false)
       /\ company_id first = Some (card_key card)
       /\ card_companyName card = render_company None first.
Proof.
  intros (k & g & Hin & ->)%company_overview_cards.
  apply entry_of_assetsByCompany in Hin as [Hg Hne].
  split; [simpl; apply or_else_not_blank; discriminate|].
  destruct g as [|first g']; [contradiction|].
  symmetry in Hg. apply filter_first in Hg as (before & rest & -> & Hb & Hf).
  exists before, first, rest. simpl.
  split; [reflexivity|]. split; [exact Hb|]. split; [|reflexivity].
  now apply in_group_true in Hf.
Qed.

(** X6 on the first card of the mixed list: its first asset has no company
    object, the later one has. *)
Lemma company_card_is_named_after_first_asset_witness :
  let card := {| card_key := "acme"; card_companyName := "Unassigned";
                 card_assetCount := 2; card_summary := None |} in
  card_companyName card <> ""
  /\ exists before first rest,
       assets_mixed = before ++ first :: rest
       /\ (forall a, In a before -> in_group (card_key card) a = false)
       /\ company_id first = Some (card_key card)
       /\ card_companyName card = render_company None first.
Proof.
  apply (company_card_is_named_after_first_asset assets_mixed mounted_view).
  left. reflexivity.
Defined.

(** X7. After a pass in which every fetch resolved, every company card
    shows the overdue and upcoming counts its own company's fetch resolved
    with. *)
Theorem cards_show_summaries_after_successful_pass
  (fetch : string -> Settled ClientMaintenanceSummary) (assets : list Asset) (card : CompanyCard) :
  (forall k, In k (JsObject.keys (assetsByCompany assets)) -> exists s, fetch k = Resolved s) ->
  In card (company_overview (AssetDashboard assets (settled_view fetch assets))) ->
  exists s, fetch (card_key card) = Resolved s
            /\ card_summary card = Some (overdue_maintenances s, upcoming_maintenances s).
Proof.
  intros Hall (k & g & Hin & ->)%company_overview_cards.
  assert (Hk : In k (JsObject.keys (assetsByCompany assets)))
    by (unfold JsObject.keys; apply in_map_iff; exists (k, g); auto).
  unfold settled_view, after_load. rewrite load_spec. cbv zeta.
  assert (Hres : forallb (resolved fetch) (JsObject.keys (assetsByCompany assets)) = true)
    by (apply forallb_forall; intros k' Hk'; now apply resolved_true, Hall).
  destruct (loop_result_resolved fetch _ JsObject.empty Hres) as [m Hm].
  rewrite Hm. simpl.
  destruct (loop_complete fetch assets m Hm) as [_ Hget].
  destruct (Hget k Hk) as (s & Hs & Hgs). exists s. now rewrite Hgs.
Qed.

(** X7 on the card of company B. *)
Lemma cards_show_summaries_after_successful_pass_witness :
  let card := {| card_key := "B"; card_companyName := "Unassigned";
                 card_assetCount := 1; card_summary := Some (1, 2) |} in
  exists s, fetch_all_resolve (card_key card) = Resolved s
            /\ card_summary card = Some (overdue_maintenances s, upcoming_maintenances s).
Proof.
  apply (cards_show_summaries_after_successful_pass fetch_all_resolve assets_ABC).
  - intros k _. exists summary_A. reflexivity.
  - right. left. reflexivity.
Defined.

(** X8. At mount no company card shows a summary block, and after a pass in
    which some fetch rejected the per-company overview is the one shown at
    mount. *)
Theorem cards_show_no_summary_without_commit
  (fetch : string -> Settled ClientMaintenanceSummary) (assets : list Asset) :
  (forall card, In card (company_overview (AssetDashboard assets mounted_view)) ->
                card_summary card = None)
  /\ ((exists k e, In k (JsObject.keys (assetsByCompany assets)) /\ fetch k = Rejected e) ->
      company_overview (AssetDashboard assets (settled_view fetch assets))
      = company_overview (AssetDashboard assets mounted_view)).
Proof.
  split.
  - intros card (k & g & _ & ->)%company_overview_cards. reflexivity.
  - intros Hrej%some_rejected.
    destruct (loop_result_rejected fetch _ JsObject.empty Hrej) as [e He].
    unfold settled_view, after_load. rewrite load_spec. cbv zeta. rewrite He.
    reflexivity.
Qed.

(** X8 on the companies [A,B,C] with fetch(B) rejecting. *)
Lemma cards_show_no_summary_without_commit_ABC :
  company_overview (AssetDashboard assets_ABC (settled_view fetch_B_rejects assets_ABC))
  = company_overview (AssetDashboard assets_ABC mounted_view).
Proof.
  apply (proj2 (cards_show_no_summary_without_commit fetch_B_rejects assets_ABC)).
  exists "B", "not found". split; [simpl; auto|reflexivity].
Defined.

(** X9. When no status is an inherited name, the status distribution has
    one card per status present in the input: the labels are distinct, each
    count is a number, the number of assets having that status, at least
    one, and every asset's status has a card. *)
Theorem status_cards_count_their_assets (assets : list Asset) :
  plain_statuses assets ->
  let cards := Js.status_distribution assets in
  NoDup (map fst cards)
  /\ (forall s c, In (s, c) cards ->
        exists n, c = Js.Num n
                  /\ n = Z.of_nat (length (filter (has_status s) assets)) /\ 1 <= n)
  /\ (forall a, In a assets -> exists n, In (status a, Js.Num n) cards).
Proof.
  intros Hs. cbv zeta. unfold Js.status_distribution.
  rewrite (assetsByStatus_plain assets Hs).
  assert (Hkeys : JsObject.own_keys (lift (assetsByStatus assets))
                  = JsObject.own_keys (assetsByStatus assets)).
  { unfold lift, JsObject.own_keys. rewrite map_map. reflexivity. }
  assert (Hnd : NoDup (JsObject.own_keys (lift (assetsByStatus assets))))
    by (rewrite Hkeys; apply NoDup_assetsByStatus).
  split; [|split].
  - now apply NoDup_keys.
  - intros s c Hin. apply (proj1 (In_entries _ _ _)) in Hin.
    apply get_In in Hin; [|exact Hnd]. rewrite get_lift in Hin.
    destruct (JsObject.get (assetsByStatus assets) s) as [n|] eqn:G; [|discriminate].
    injection Hin as <-. exists n. split; [reflexivity|].
    pose proof (count_of_assetsByStatus assets s) as Hc.
    rewrite G, or_zero_Some in Hc. split; [exact Hc|].
    assert (Hkey : In s (JsObject.own_keys (assetsByStatus assets))).
    { destruct (in_dec string_dec s (JsObject.own_keys (assetsByStatus assets)))
        as [|Hno]; [assumption|]. apply get_None_not_own in Hno. congruence. }
    apply status_key_has_asset in Hkey as [[]|(a & Ha & Hst)].
    assert (Hf : In a (filter (has_status s) assets)).
    { apply filter_In. split; [exact Ha|]. unfold has_status. rewrite Hst.
      apply String.eqb_refl. }
    destruct (filter (has_status s) assets); [contradiction|]. simpl in Hc. lia.
  - intros a Ha.
    pose proof (count_of_assetsByStatus assets (status a)) as Hc.
    assert (Hf : In a (filter (has_status (status a)) assets)).
    { apply filter_In. split; [exact Ha|]. apply String.eqb_refl. }
    destruct (JsObject.get (assetsByStatus assets) (status a)) as [n|] eqn:E.
    + exists n. apply In_entries, get_Some_In. rewrite get_lift, E. reflexivity.
    + exfalso. simpl in Hc.
      destruct (filter (has_status (status a)) assets); [contradiction|].
      simpl in Hc. lia.
Qed.

(** X9 on the mixed list. *)
Lemma status_cards_count_their_assets_mixed :
  let cards := Js.status_distribution assets_mixed in
  NoDup (map fst cards)
  /\ (forall s c, In (s, c) cards ->
        exists n, c = Js.Num n
                  /\ n = Z.of_nat (length (filter (has_status s) assets_mixed)) /\ 1 <= n)
  /\ (forall a, In a assets_mixed -> exists n, In (status a, Js.Num n) cards).
Proof.
  apply status_cards_count_their_assets. apply plain_mixed.
Defined.

(** X10. When no company identifier and no status is an inherited name or
    an array index, the per-company overview renders and its cards, like the
    status cards, appear in the order in which their key first appears in the
    asset list. *)
Theorem cards_follow_first_appearance (assets : list Asset) (v : View) :
  plain_company_ids assets ->
  plain_statuses assets ->
  no_array_index (company_ids assets) = true ->
  no_array_index (map status assets) = true ->
  (exists cards, Js.company_overview assets v = Normal cards
                 /\ map card_key cards = first_appearances (company_ids assets))
  /\ map fst (Js.status_distribution assets) = first_appearances (map status assets).
Proof.
  intros Hpc Hps Hc Hs.
  assert (Hkc : JsObject.own_keys (assetsByCompany assets)
                = first_appearances (company_ids assets))
    by (unfold assetsByCompany; now rewrite own_keys_fold_group).
  assert (Hks : JsObject.own_keys (assetsByStatus assets)
                = first_appearances (map status assets))
    by (unfold assetsByStatus; now rewrite own_keys_fold_status).
  split.
  - unfold Js.company_overview. rewrite (assetsByCompany_plain assets Hpc).
    eexists. split; [reflexivity|].
    rewrite map_map.
    rewrite entries_without_index
      by (rewrite Hkc; now apply no_array_index_first_appearances).
    rewrite <- Hkc. unfold JsObject.own_keys. apply map_ext. now intros [k g].
  - unfold Js.status_distribution. rewrite (assetsByStatus_plain assets Hps).
    assert (Hkeys : JsObject.own_keys (lift (assetsByStatus assets))
                    = JsObject.own_keys (assetsByStatus assets)).
    { unfold lift, JsObject.own_keys. rewrite map_map. reflexivity. }
    rewrite entries_without_index
      by (rewrite Hkeys, Hks; now apply no_array_index_first_appearances).
    exact (eq_trans Hkeys Hks).
Qed.

(** X10 on the mixed list. *)
Lemma cards_follow_first_appearance_witness :
  (exists cards, Js.company_overview assets_mixed mounted_view = Normal cards
                 /\ map card_key cards = ["acme"; "globex"])
  /\ map fst (Js.status_distribution assets_mixed) = ["active"; "inactive"].
Proof.
  apply (cards_follow_first_appearance assets_mixed mounted_view);
    try apply plain_mixed; reflexivity.
Defined.

(** X11. Every row of the table of recent assets belongs to one of the
    first five assets, shows its name, tag and status unchanged, and never has
    a blank Company or Location cell. *)
Theorem table_company_and_location_never_blank (assets : list Asset) (row : list (option string)) :
  In row (recent_assets (AssetDashboard assets mounted_view)) ->
  exists record company_cell location_cell,
    In record (table_data assets)
    /\ row = [ Some (name record); Some (asset_tag record); Some (status record);
               Some company_cell; Some location_cell ]
    /\ company_cell <> "" /\ location_cell <> "".
Proof.
  simpl. unfold recent_assets_table, DataTable, table_data.
  intros (record & <- & Hin)%in_map_iff.
  eexists record, _, _. split; [exact Hin|]. split; [reflexivity|].
  split; apply or_else_not_blank; discriminate.
Qed.

(** X11 on the second row of the mixed list. *)
Lemma table_company_and_location_never_blank_witness :
  exists record company_cell location_cell,
    In record (table_data assets_mixed)
    /\ [ Some "router"; Some "T-2"; Some "inactive"; Some "Globex"; Some "Not specified" ]
       = [ Some (name record); Some (asset_tag record); Some (status record);
           Some company_cell; Some location_cell ]
    /\ company_cell <> "" /\ location_cell <> "".
Proof.
  apply (table_company_and_location_never_blank assets_mixed).
  right. left. reflexivity.
Defined.

(** X12. Within the safe range, before and after, assigning a summary to a
    company in the summary mapping changes each total by the new count minus
    the count the company had before (zero when it had no entry): an entry is
    replaced, never added twice. *)
Theorem totals_follow_an_assignment
  (o : JsObject.t ClientMaintenanceSummary) (k : string) (s : ClientMaintenanceSummary) :
  Js.safe (map snd o) ->
  Js.safe (map snd (JsObject.set o k s)) ->
  let before := Js.maintenanceStats o in
  let after := Js.maintenanceStats (JsObject.set o k s) in
  let old f := match JsObject.get o k with Some s0 => f s0 | None => 0 end in
  totalSchedules after = totalSchedules before + total_schedules s - old total_schedules
  /\ overdueMaintenances after
     = overdueMaintenances before + overdue_maintenances s - old overdue_maintenances
  /\ upcomingMaintenances after
     = upcomingMaintenances before + upcoming_maintenances s - old upcoming_maintenances.
Proof.
  intros H1 H2. cbv zeta. rewrite !maintenanceStats_safe by assumption. simpl.
  rewrite !sum_counts_set. auto.
Qed.

(** X12 on replacing the summary of company A. *)
Lemma totals_follow_an_assignment_witness :
  let o := [("A", summary_A); ("C", summary_C)] in
  let before := Js.maintenanceStats o in
  let after := Js.maintenanceStats (JsObject.set o "A" summary_C) in
  totalSchedules after = totalSchedules before + 3 - 5
  /\ overdueMaintenances after = overdueMaintenances before + 0 - 1
  /\ upcomingMaintenances after = upcomingMaintenances before + 1 - 2.
Proof.
  apply (totals_follow_an_assignment [("A", summary_A); ("C", summary_C)] "A" summary_C);
    repeat split; unfold Js.safe_sum, Js.max_safe_integer; simpl; lia.
Defined.



(** X14. For two asset lists without inherited names as company identifier
    or status, aggregating one after the other completes, the group of a
    company is its group in the first list followed by its group in the
    second, and the count of a status is the sum of its two counts. *)
Theorem aggregator_distributes_over_append (l1 l2 : list Asset) (k : string) :
  plain_company_ids (l1 ++ l2) ->
  plain_statuses (l1 ++ l2) ->
  exists g1 g2 g,
    Js.assetsByCompany l1 = Normal g1
    /\ Js.assetsByCompany l2 = Normal g2
    /\ Js.assetsByCompany (l1 ++ l2) = Normal g
    /\ JsObject.get g k
       = match JsObject.get g1 k, JsObject.get g2 k with
         | Some a, Some b => Some (a ++ b)
         | Some a, None => Some a
         | None, Some b => Some b
         | None, None => None
         end
    /\ JsObject.get (Js.assetsByStatus (l1 ++ l2)) k
       = match JsObject.get (Js.assetsByStatus l1) k, JsObject.get (Js.assetsByStatus l2) k with
         | Some (Js.Num a), Some (Js.Num b) => Some (Js.Num (a + b))
         | Some c, None => Some c
         | None, Some c => Some c
         | _, _ => None
         end.
Proof.
  intros Hc Hs.
  assert (Hc1 : plain_company_ids l1)
    by (intros a id Ha; apply Hc, in_or_app; now left).
  assert (Hc2 : plain_company_ids l2)
    by (intros a id Ha; apply Hc, in_or_app; now right).
  assert (Hs1 : plain_statuses l1) by (intros a Ha; apply Hs, in_or_app; now left).
  assert (Hs2 : plain_statuses l2) by (intros a Ha; apply Hs, in_or_app; now right).
  exists (assetsByCompany l1), (assetsByCompany l2), (assetsByCompany (l1 ++ l2)).
  rewrite !assetsByCompany_plain by assumption.
  split; [reflexivity|]. split; [reflexivity|]. split; [reflexivity|]. split.
  - rewrite !group_of_assetsByCompany, filter_app.
    destruct (filter (in_group k) l1), (filter (in_group k) l2); simpl;
      rewrite ?app_nil_r; reflexivity.
  - rewrite !assetsByStatus_plain, !get_lift, !status_count_exact by assumption.
    rewrite filter_app, length_app.
    destruct (length (filter (has_status k) l1)) as [|n1],
             (length (filter (has_status k) l2)) as [|n2]; cbn [Nat.add option_map];
      try reflexivity.
    + now rewrite Nat.add_0_r.
    + f_equal. f_equal. lia.
Qed.

(** X14 on the two halves of the mixed list. *)
Lemma aggregator_distributes_over_append_witness :
  exists g1 g2 g,
    Js.assetsByCompany (firstn 2 assets_mixed) = Normal g1
    /\ Js.assetsByCompany (skipn 2 assets_mixed) = Normal g2
    /\ Js.assetsByCompany (firstn 2 assets_mixed ++ skipn 2 assets_mixed) = Normal g
    /\ JsObject.get g "acme"
       = match JsObject.get g1 "acme", JsObject.get g2 "acme" with
         | Some a, Some b => Some (a ++ b)
         | Some a, None => Some a
         | None, Some b => Some b
         | None, None => None
         end
    /\ JsObject.get (Js.assetsByStatus (firstn 2 assets_mixed ++ skipn 2 assets_mixed)) "acme"
       = match JsObject.get (Js.assetsByStatus (firstn 2 assets_mixed)) "acme",
               JsObject.get (Js.assetsByStatus (skipn 2 assets_mixed)) "acme" with
         | Some (Js.Num a), Some (Js.Num b) => Some (Js.Num (a + b))
         | Some c, None => Some c
         | None, Some c => Some c
         | _, _ => None
         end.
Proof.
  apply (aggregator_distributes_over_append (firstn 2 assets_mixed) (skipn 2 assets_mixed) "acme");
    apply plain_mixed.
Defined.



(** X16. When some asset's company identifier is the name of a property
    inherited from [Object.prototype], the grouping throws the TypeError of
    [acc[id].push], whatever the other assets are, and the per-company
    overview is not rendered. *)
Theorem grouping_throws_on_inherited_company_id (assets : list Asset) :
  (exists a id, In a assets /\ company_id a = Some id /\ Js.inherited id = true) ->
  Js.assetsByCompany assets = Throw Js.push_is_not_a_function
  /\ forall v, Js.company_overview assets v = Throw Js.push_is_not_a_function.
Proof.
  intros H.
  assert (E : Js.assetsByCompany assets = Throw Js.push_is_not_a_function).
  { apply reduce_group_throws; [intros k []|exact H]. }
  split; [exact E|]. intros v. unfold Js.company_overview. now rewrite E.
Qed.

(** X16 on an asset of company A followed by one of "constructor". *)
Lemma grouping_throws_on_inherited_company_id_witness :
  Js.assetsByCompany [asset_of "a1" (Some "A"); asset_constructor_company]
  = Throw Js.push_is_not_a_function
  /\ forall v, Js.company_overview [asset_of "a1" (Some "A"); asset_constructor_company] v
               = Throw Js.push_is_not_a_function.
Proof.
  apply grouping_throws_on_inherited_company_id.
  exists asset_constructor_company, "constructor".
  split; [right; now left|]. split; reflexivity.
Defined.
